(** * Frame validation, return-address patching and anchor walkability
      (HotSpot, AArch64): a shallow embedding of
      [src/hotspot/cpu/aarch64/frame_aarch64.cpp].

    The embedding follows the C++ text function by function.  Pointers are
    64-bit machine words carried as [Z] with the wrap-around of pointer
    arithmetic written out; the thread's stack memory is a word store indexed
    by byte address; debug assertions ([assert], [vmassert]) are outcomes of
    their own, so that a function either returns a value or stops at a named
    assertion. *)

From Stdlib Require Import ZArith Bool List Lia.
Import ListNotations.
Local Open Scope Z_scope.

(** ** Machine words and pointer arithmetic *)

Definition address := Z.

Definition wordSize : Z := 8.

Definition nullptr : address := 0.

(** Reduction of an integer to an unsigned 64-bit word. *)
Definition wrap64 (z : Z) : Z := z mod 2 ^ 64.

(** The two's complement reading of a 64-bit word ([intptr_t], [ptrdiff_t]). *)
Definition signed64 (z : Z) : Z :=
  let w := wrap64 z in if w <? 2 ^ 63 then w else w - 2 ^ 64.

(** [p + n] for [p : address] (a byte pointer, [u_char*]). *)
Definition byte_add (p : address) (n : Z) : address := wrap64 (p + n).

(** [p + i] for [p : intptr_t*]: the index is scaled by the word size. *)
Definition word_add (p : address) (i : Z) : address := wrap64 (p + wordSize * i).

(** [p - q] for [p q : intptr_t*]: the signed byte distance, counted in words
    (an arithmetic shift, as compilers emit for a pointer difference). *)
Definition word_diff (p q : address) : Z := Z.shiftr (signed64 (p - q)) 3.

(** ** Stack memory *)

(** A snapshot of memory: the word found at each byte address. *)
Definition Memory := address -> Z.

Definition load (m : Memory) (a : address) : Z := m a.

Definition store (m : Memory) (a : address) (v : Z) : Memory :=
  fun x => if x =? a then v else m x.

(** ** Outcomes *)

(** The debug assertions of the embedded functions, named after their text. *)
Inductive vm_assert : Type :=
| assert_unexpected_pc                (* patch_pc: "unexpected pc" *)
| assert_return_barrier               (* patch_pc: "return barrier" *)
| assert_pc_consistency               (* patch_pc: _pc == pc_old || pc == pc_old || pc_old == nullptr *)
| assert_original_pc_stored           (* patch_pc: "expected original PC to be stored before patching" *)
| assert_not_interpreted_frame        (* is_interpreted_frame_valid: "Not an interpreted frame" *)
| assert_should_count_return_address  (* safe_for_sender: "should count return address at least" *)
| assert_not_called_from_Java         (* make_walkable: "not called from Java code?" *)
| assert_already_walkable             (* make_walkable: "already walkable" *)
| assert_something_went_wrong.        (* make_walkable: "something went wrong" *)

Inductive result (A : Type) : Type :=
| Returns (a : A)
| Fatal (e : vm_assert).

Arguments Returns {A} a.
Arguments Fatal {A} e.

(** ** Frame layout constants (the [enum] of [frame_aarch64.hpp])

    The header is not among the sources embedded here, so the word offsets
    the functions use are taken as a parameter.  [aarch64_layout] below gives the
    values the platform uses. *)
Record FrameLayout : Type := {
  link_offset : Z;
  return_addr_offset : Z;
  sender_sp_offset : Z;
  interpreter_frame_sender_sp_offset : Z;
  interpreter_frame_method_offset : Z;
  interpreter_frame_cache_offset : Z;
  interpreter_frame_locals_offset : Z;
  interpreter_frame_bcp_offset : Z;
  interpreter_frame_initial_sp_offset : Z;
  entry_frame_call_wrapper_offset : Z
}.

(** ** Code units *)

(** What [safe_for_sender] asks of a compiled method ([nmethod]). *)
Record nmethod : Type := {
  is_deopt_entry : address -> bool;
  is_deopt_mh_entry : address -> bool;
  method_is_method_handle_intrinsic : bool     (* method()->is_method_handle_intrinsic() *)
}.

(** What the functions ask of a [CodeBlob].  [blob_id] stands for the blob's
    own address, the only thing [patch_pc] compares. *)
Record CodeBlob : Type := {
  blob_id : Z;
  is_frame_complete_at : address -> bool;
  code_contains : address -> bool;
  frame_size : Z;
  is_adapter_blob : bool;
  is_runtime_stub : bool;
  is_upcall_stub : bool;
  as_nmethod_or_null : option nmethod
}.

(** [is_nmethod()] holds exactly when [as_nmethod_or_null()] is non-null. *)
Definition is_nmethod (cb : CodeBlob) : bool :=
  match as_nmethod_or_null cb with Some _ => true | None => false end.

(** Pointer equality of two possibly-null [CodeBlob*]. *)
Definition same_blob (a b : option CodeBlob) : bool :=
  match a, b with
  | None, None => true
  | Some x, Some y => blob_id x =? blob_id y
  | _, _ => false
  end.

(** ** Frames *)

Inductive deopt_state : Type :=
| not_deoptimized
| is_deoptimized
| unknown.

Record frame : Type := {
  _sp : address;
  _unextended_sp : address;
  _fp : address;
  _pc : address;
  _cb : option CodeBlob;
  _deopt_state : deopt_state;
  _on_heap : bool
}.

Definition set_pc (f : frame) (pc : address) : frame :=
  {| _sp := _sp f; _unextended_sp := _unextended_sp f; _fp := _fp f;
     _pc := pc; _cb := _cb f; _deopt_state := _deopt_state f;
     _on_heap := _on_heap f |}.

Definition set_deopt_state (f : frame) (d : deopt_state) : frame :=
  {| _sp := _sp f; _unextended_sp := _unextended_sp f; _fp := _fp f;
     _pc := _pc f; _cb := _cb f; _deopt_state := d;
     _on_heap := _on_heap f |}.

(** Modelled from the spec: [frame::is_heap_frame] is declared in the shared
    [frame.hpp], which is missing; the frame classification first asks whether
    the frame is heap (continuation) resident, a flag of the descriptor. *)
Definition is_heap_frame (f : frame) : bool := _on_heap f.

(** ** The thread's stack bounds *)

(** The four stack-range predicates of [JavaThread] that the functions call.
    Their bodies live in the shared runtime; they are an interface here. *)
Class StackBoundsOracle (Thread : Type) : Type := {
  is_in_usable_stack : Thread -> address -> bool;
  is_in_full_stack_checked : Thread -> address -> bool;
  is_in_stack_range_excl : Thread -> address -> address -> bool;
  is_in_stack_range_incl : Thread -> address -> address -> bool
}.

(** ** The rest of the runtime *)

(** Everything else the functions call and that is defined elsewhere in the
    virtual machine: the code cache, the interpreter, stub routines,
    continuations, method metadata and pointer authentication. *)
Record Runtime (Thread : Type) : Type := {
  CodeCache_find_blob : address -> option CodeBlob;
  Interpreter_contains : address -> bool;
  Interpreter_stackElementSize : Z;
  StubRoutines_returns_to_call_stub : address -> bool;
  Continuation_is_return_barrier_entry : address -> bool;
  Continuation_is_frame_in_continuation : Thread -> frame -> bool;
  Continuation_continuation_bottom_sender : Thread -> frame -> address -> frame;
  is_entry_frame_valid : Thread -> frame -> bool;
  Method_is_valid_method : address -> bool;
  Method_max_stack : address -> Z;
  Method_validate_bci_from_bcp : address -> address -> Z;
  MetaspaceObj_is_valid : address -> bool;
  pauth_sign_return_address : address -> address;
  pauth_strip_verifiable : address -> address;
  pauth_strip_pointer : address -> address;
  get_deopt_original_pc : Memory -> frame -> address
}.

Arguments CodeCache_find_blob {Thread} _ _.
Arguments Interpreter_contains {Thread} _ _.
Arguments Interpreter_stackElementSize {Thread} _.
Arguments StubRoutines_returns_to_call_stub {Thread} _ _.
Arguments Continuation_is_return_barrier_entry {Thread} _ _.
Arguments Continuation_is_frame_in_continuation {Thread} _ _ _.
Arguments Continuation_continuation_bottom_sender {Thread} _ _ _ _.
Arguments is_entry_frame_valid {Thread} _ _ _.
Arguments Method_is_valid_method {Thread} _ _.
Arguments Method_max_stack {Thread} _ _.
Arguments Method_validate_bci_from_bcp {Thread} _ _ _.
Arguments MetaspaceObj_is_valid {Thread} _ _.
Arguments pauth_sign_return_address {Thread} _ _.
Arguments pauth_strip_verifiable {Thread} _ _.
Arguments pauth_strip_pointer {Thread} _ _.
Arguments get_deopt_original_pc {Thread} _ _ _.

(** ** The frame functions *)

Section FrameFunctions.

Context {Thread : Type} {bounds : StackBoundsOracle Thread}.
Variable lay : FrameLayout.
Variable rt : Runtime Thread.

(** Modelled from the spec: the slot primitives of the shared [frame.hpp]
    are missing.  [addr_at(index)] is the address [&fp()[index]] of a fixed
    fp-relative slot, and [at_ m f index] is the word found in that slot,
    [fp()[index]] as lines 139-141 and 272 read it.  ([frame::at] itself,
    which treats heap frames differently, is [frame_at] further down.) *)
Definition addr_at (f : frame) (index : Z) : address :=
  word_add (_fp f) index.

Definition at_ (m : Memory) (f : frame) (index : Z) : Z :=
  load m (addr_at f index).

(** Modelled from the spec: the frame-kind tests of the shared [frame]
    class are missing.  A frame is interpreted when its pc falls inside
    interpreter code, an entry (call-stub) frame when its pc is the
    returns-to-call-stub address, an upcall-stub frame when its code unit is
    an upcall stub. *)
Definition is_interpreted_frame (f : frame) : bool :=
  Interpreter_contains rt (_pc f).

Definition is_entry_frame (f : frame) : bool :=
  StubRoutines_returns_to_call_stub rt (_pc f).

Definition is_upcall_stub_frame (f : frame) : bool :=
  match _cb f with Some cb => is_upcall_stub cb | None => false end.

(** Modelled from the spec: the four-address constructor
    [frame(sp, unextended_sp, fp, pc)] of [frame_aarch64.inline.hpp] is
    missing.  The descriptor it builds is a stack frame with the four given
    addresses and the code unit found for [pc]; its deoptimisation state is
    not looked at by the functions below. *)
Definition frame_of (sp unextended_sp fp pc : address) : frame :=
  {| _sp := sp; _unextended_sp := unextended_sp; _fp := fp; _pc := pc;
     _cb := CodeCache_find_blob rt pc; _deopt_state := unknown;
     _on_heap := false |}.

(** Modelled from the spec: the inline slot accessors of
    [frame_aarch64.inline.hpp] are missing.  Each reads a fixed fp-relative
    slot: the method reference, the stored bytecode position, the address of
    the constant-pool-cache slot, the call-wrapper record of an entry frame.
    The locals base is stored relativised (see [interpreter_frame_set_locals]
    in the source, which writes [locs - fp()]), hence computed from [fp]. *)
Definition safe_interpreter_frame_method (m : Memory) (f : frame) : address :=
  at_ m f (interpreter_frame_method_offset lay).

Definition interpreter_frame_bcp (m : Memory) (f : frame) : address :=
  at_ m f (interpreter_frame_bcp_offset lay).

Definition interpreter_frame_cache_addr (f : frame) : address :=
  addr_at f (interpreter_frame_cache_offset lay).

Definition interpreter_frame_locals (m : Memory) (f : frame) : address :=
  word_add (_fp f) (at_ m f (interpreter_frame_locals_offset lay)).

Definition entry_frame_call_wrapper (m : Memory) (f : frame) : address :=
  at_ m f (entry_frame_call_wrapper_offset lay).

(** *** [frame::is_interpreted_frame_valid] (lines 531-582) *)
Definition is_interpreted_frame_valid
    (thread : Thread) (m : Memory) (f : frame) : result bool :=
  if negb (is_interpreted_frame f) then Fatal assert_not_interpreted_frame else
  (* These are reasonable sanity checks *)
  if (_fp f =? nullptr) || negb (Z.land (_fp f) (wordSize - 1) =? 0)
  then Returns false else
  if (_sp f =? nullptr) || negb (Z.land (_sp f) (wordSize - 1) =? 0)
  then Returns false else
  if word_add (_fp f) (interpreter_frame_initial_sp_offset lay) <? _sp f
  then Returns false else
  (* this attempts to deal with unsigned comparison above *)
  if _fp f <=? _sp f then Returns false else
  (* first the method *)
  let meth := safe_interpreter_frame_method m f in
  if negb (Method_is_valid_method rt meth) then Returns false else
  (* stack frames shouldn't be much larger than max_stack elements;
     this test requires the use of unextended_sp *)
  if word_diff (_fp f) (_unextended_sp f)
       >? 1024 + Method_max_stack rt meth * Interpreter_stackElementSize rt
  then Returns false else
  (* validate bci/bcx *)
  let bcp := interpreter_frame_bcp m f in
  if Method_validate_bci_from_bcp rt meth bcp <? 0 then Returns false else
  (* validate constantPoolCache* *)
  let cp := load m (interpreter_frame_cache_addr f) in
  if negb (MetaspaceObj_is_valid rt cp) then Returns false else
  (* validate locals *)
  let locals := interpreter_frame_locals m f in
  Returns (is_in_stack_range_incl thread locals (_fp f)).

(** *** [frame::safe_for_sender] (lines 57-279) *)

(** [fp_safe] (lines 89-90): fp within the stack and above (but not equal)
    sp; the second test handles fp being -1. *)
Definition fp_safe (thread : Thread) (f : frame) : bool :=
  is_in_stack_range_excl thread (_fp f) (_sp f)
  && is_in_full_stack_checked thread
       (byte_add (_fp f) (return_addr_offset lay * wordSize)).

(** The four locals [sender_sp], [sender_unextended_sp], [sender_pc] and
    [saved_fp] of the function. *)
Record sender_candidate : Type := {
  sender_sp : address;
  sender_unextended_sp : address;
  sender_pc : address;
  saved_fp : address
}.

(** Lines 129-162: the candidate sender.  [None] stands for the three
    [return false] of the block. *)
Definition candidate_sender
    (thread : Thread) (m : Memory) (f : frame) (cb : CodeBlob)
    : option sender_candidate :=
  if is_interpreted_frame f then
    (* fp must be safe *)
    if negb (fp_safe thread f) then None else
    Some {| sender_sp := addr_at f (sender_sp_offset lay);
            sender_unextended_sp := at_ m f (interpreter_frame_sender_sp_offset lay);
            saved_fp := at_ m f (link_offset lay);
            sender_pc := pauth_strip_verifiable rt (at_ m f (return_addr_offset lay)) |}
  else
    (* must be some sort of compiled/runtime frame *)
    if frame_size cb <=? 0 then None else
    let ssp := word_add (_unextended_sp f) (frame_size cb) in
    (* Is sender_sp safe? *)
    if negb (is_in_full_stack_checked thread ssp) then None else
    Some {| sender_sp := ssp;
            sender_unextended_sp := ssp;
            saved_fp := load m (word_add ssp (- sender_sp_offset lay));
            sender_pc := pauth_strip_pointer rt (load m (word_add ssp (-1))) |}.

(** Lines 164-174: a sender pc that is the return barrier is replaced by the
    continuation's bottom sender, once the frame is known to belong to a
    continuation.  [None] stands for the [return false]. *)
Definition through_return_barrier
    (thread : Thread) (f : frame) (c : sender_candidate)
    : option sender_candidate :=
  if Continuation_is_return_barrier_entry rt (sender_pc c) then
    if negb (Continuation_is_frame_in_continuation rt thread f) then None else
    let s := Continuation_continuation_bottom_sender rt thread f (sender_sp c) in
    Some {| sender_sp := _sp s;
            sender_unextended_sp := sender_unextended_sp c;
            saved_fp := saved_fp c;
            sender_pc := _pc s |}
  else Some c.

(** Lines 195-260: a sender that is not the interpreter. *)
Definition check_code_cache_sender
    (thread : Thread) (m : Memory) (c : sender_candidate) : result bool :=
  (* We must always be able to find a recognizable pc *)
  match CodeCache_find_blob rt (sender_pc c) with
  | None => Returns false
  | Some sender_blob =>
    if sender_pc c =? nullptr then Returns false else
    (* Could just be some random pointer within the codeBlob *)
    if negb (code_contains sender_blob (sender_pc c)) then Returns false else
    (* We should never be able to see an adapter *)
    if is_adapter_blob sender_blob then Returns false else
    (* Could be the call_stub *)
    if StubRoutines_returns_to_call_stub rt (sender_pc c) then
      if negb (is_in_stack_range_excl thread (saved_fp c) (sender_sp c))
      then Returns false else
      let sender := frame_of (sender_sp c) (sender_unextended_sp c)
                             (saved_fp c) (sender_pc c) in
      (* Validate the JavaCallWrapper an entry frame must have *)
      let jcw := entry_frame_call_wrapper m sender in
      Returns (is_in_stack_range_excl thread jcw (_fp sender))
    else if is_upcall_stub sender_blob then Returns false else
    if match as_nmethod_or_null sender_blob with
       | Some nm => is_deopt_mh_entry nm (sender_pc c)
                    || is_deopt_entry nm (sender_pc c)
                    || method_is_method_handle_intrinsic nm
       | None => false
       end
    then Returns false else
    (* every nmethod has a non-zero frame size *)
    if frame_size sender_blob <=? 0 then
      if is_nmethod sender_blob
      then Fatal assert_should_count_return_address
      else Returns false
    else
    (* We should never be able to see anything here except an nmethod *)
    if negb (is_nmethod sender_blob) then Returns false else
    (* We've validated the potential sender that would be created *)
    Returns true
  end.

(** Lines 176-260: validation of the candidate sender. *)
Definition check_sender
    (thread : Thread) (m : Memory) (c : sender_candidate) : result bool :=
  (* If the potential sender is the interpreter then we can do some more checking *)
  if Interpreter_contains rt (sender_pc c) then
    if negb (is_in_stack_range_excl thread (saved_fp c) (sender_sp c))
    then Returns false else
    (* construct the potential sender *)
    let sender := frame_of (sender_sp c) (sender_unextended_sp c)
                           (saved_fp c) (sender_pc c) in
    is_interpreted_frame_valid thread m sender
  else check_code_cache_sender thread m c.

Definition safe_for_sender
    (thread : Thread) (m : Memory) (f : frame) : result bool :=
  if is_heap_frame f then Returns true else
  (* sp must be within the usable part of the stack (not in guards) *)
  if negb (is_in_usable_stack thread (_sp f)) then Returns false else
  (* unextended sp must be within the stack *)
  if negb (is_in_full_stack_checked thread (_unextended_sp f))
  then Returns false else
  match _cb f with
  | Some cb =>
    (* First check if frame is complete and tester is reliable *)
    if negb (is_frame_complete_at cb (_pc f))
       && (is_nmethod cb || is_adapter_blob cb || is_runtime_stub cb)
    then Returns false else
    (* Could just be some random pointer within the codeBlob *)
    if negb (code_contains cb (_pc f)) then Returns false else
    (* Entry frame checks *)
    if is_entry_frame f
    then Returns (fp_safe thread f && is_entry_frame_valid rt thread f) else
    if is_upcall_stub_frame f then Returns (fp_safe thread f) else
    match candidate_sender thread m f cb with
    | None => Returns false
    | Some c =>
      match through_return_barrier thread f c with
      | None => Returns false
      | Some c' => check_sender thread m c'
      end
    end
  | None =>
    (* Must be native-compiled frame: fp must be safe *)
    if negb (fp_safe thread f) then Returns false else
    (* Will the pc we fetch be non-zero *)
    if at_ m f (return_addr_offset lay) =? nullptr then Returns false else
    Returns true
  end.

(** The return address found one word below sp, stripped of its signature
    ([pc_old] in [patch_pc]). *)
Definition stored_pc (m : Memory) (f : frame) : address :=
  pauth_strip_verifiable rt (load m (word_add (_sp f) (-1))).

(** *** [frame::patch_pc] (lines 281-312)

    The function updates the frame and one stack word; the diagnostic
    printing under [TracePcPatching] changes neither and is left out. *)
Definition patch_pc (m : Memory) (f : frame) (pc : address)
    : result (frame * Memory) :=
  if negb (same_blob (_cb f) (CodeCache_find_blob rt pc))
  then Fatal assert_unexpected_pc else
  let pc_addr := word_add (_sp f) (-1) in
  let signed_pc := pauth_sign_return_address rt pc in
  let pc_old := pauth_strip_verifiable rt (load m pc_addr) in
  if Continuation_is_return_barrier_entry rt pc_old
  then Fatal assert_return_barrier else
  (* Either the return address is the original one or we are going to
     patch in the same address that's already there. *)
  if negb ((_pc f =? pc_old) || (pc =? pc_old) || (pc_old =? nullptr))
  then Fatal assert_pc_consistency else
  let old_pc := _pc f in
  let m' := store m pc_addr signed_pc in
  (* must be set before call to get_deopt_original_pc *)
  let f1 := set_pc f pc in
  let original_pc := get_deopt_original_pc rt m' f1 in
  if negb (original_pc =? nullptr) then
    if negb (original_pc =? old_pc) then Fatal assert_original_pc_stored else
    Returns (set_pc (set_deopt_state f1 is_deoptimized) original_pc, m')
  else
    Returns (set_deopt_state f1 not_deoptimized, m').

End FrameFunctions.

(** ** The Java frame anchor *)

Record JavaFrameAnchor : Type := {
  _last_Java_sp : address;
  _last_Java_fp : address;
  _last_Java_pc : address
}.

Definition last_Java_sp (a : JavaFrameAnchor) : address := _last_Java_sp a.
Definition last_Java_pc (a : JavaFrameAnchor) : address := _last_Java_pc a.

Definition set_last_Java_pc (a : JavaFrameAnchor) (pc : address) : JavaFrameAnchor :=
  {| _last_Java_sp := _last_Java_sp a; _last_Java_fp := _last_Java_fp a;
     _last_Java_pc := pc |}.

(** Modelled from the spec: [JavaFrameAnchor::walkable] is declared in
    [javaFrameAnchor_aarch64.hpp], which is missing.  An anchor is walkable
    when a call-out is recorded and its pc has been captured. *)
Definition walkable (a : JavaFrameAnchor) : bool :=
  negb (_last_Java_sp a =? nullptr) && negb (_last_Java_pc a =? nullptr).

(** What a call of [make_walkable] leaves behind: the anchor, and the stack
    addresses it read, in order. *)
Record walk_outcome : Type := {
  anchor_after : JavaFrameAnchor;
  stack_reads : list address
}.

(** *** [JavaFrameAnchor::make_walkable] (lines 825-834) *)
Definition make_walkable (m : Memory) (a : JavaFrameAnchor) : result walk_outcome :=
  (* last frame set? *)
  if last_Java_sp a =? nullptr
  then Returns {| anchor_after := a; stack_reads := [] |} else
  (* already walkable? *)
  if walkable a
  then Returns {| anchor_after := a; stack_reads := [] |} else
  if last_Java_sp a =? nullptr then Fatal assert_not_called_from_Java else
  if negb (last_Java_pc a =? nullptr) then Fatal assert_already_walkable else
  let slot := word_add (_last_Java_sp a) (-1) in
  let a' := set_last_Java_pc a (load m slot) in
  if negb (walkable a') then Fatal assert_something_went_wrong else
  Returns {| anchor_after := a'; stack_reads := [slot] |}.

(** ** Reaching the candidate sender *)

Section PathConditions.

Context {Thread : Type} {bounds : StackBoundsOracle Thread}.
Variable lay : FrameLayout.
Variable rt : Runtime Thread.

(** [safe_for_sender] gets past line 162 with the candidate [c]: the frame
    is a stack frame whose sp and unextended sp passed the stack-region
    tests, its code unit [cb] passed the completeness and range tests, it is
    neither an entry nor an upcall-stub frame, and lines 129-162 produced
    [c]. *)
Definition reaches_candidate
    (thread : Thread) (m : Memory) (f : frame) (cb : CodeBlob)
    (c : sender_candidate) : Prop :=
  is_heap_frame f = false /\
  is_in_usable_stack thread (_sp f) = true /\
  is_in_full_stack_checked thread (_unextended_sp f) = true /\
  _cb f = Some cb /\
  negb (is_frame_complete_at cb (_pc f))
    && (is_nmethod cb || is_adapter_blob cb || is_runtime_stub cb) = false /\
  code_contains cb (_pc f) = true /\
  is_entry_frame rt f = false /\
  is_upcall_stub_frame f = false /\
  candidate_sender lay rt thread m f cb = Some c.

(** [safe_for_sender] gets past line 174 with the candidate [c']. *)
Definition reaches_sender_check
    (thread : Thread) (m : Memory) (f : frame) (cb : CodeBlob)
    (c' : sender_candidate) : Prop :=
  exists c, reaches_candidate thread m f cb c /\
            through_return_barrier rt thread f c = Some c'.

End PathConditions.

(** ** A thread given by its stack bounds *)

(** Modelled from the spec: the bodies of the stack-range predicates are
    missing.  The stack grows down from [stack_base] (the stack top of the
    checks) to [stack_end]; the full region is everything in between, the
    usable region leaves out the guard pages, which sit below
    [stack_reserved_zone_base]; a range test asks for an address below the
    base and above a limit, the limit itself included or not. *)
Record JavaThread : Type := {
  stack_base : address;
  stack_end : address;
  stack_reserved_zone_base : address
}.

Definition is_in_stack_range
    (t : JavaThread) (adr limit : address) (inclusive : bool) : bool :=
  (adr <? stack_base t) && (if inclusive then limit <=? adr else limit <? adr).

#[global] Instance JavaThread_bounds : StackBoundsOracle JavaThread := {
  is_in_usable_stack t adr := is_in_stack_range t adr (stack_reserved_zone_base t) true;
  is_in_full_stack_checked t adr := is_in_stack_range t adr (stack_end t) true;
  is_in_stack_range_excl t adr limit := is_in_stack_range t adr limit false;
  is_in_stack_range_incl t adr limit := is_in_stack_range t adr limit true
}.

(** The offsets of [frame_aarch64.hpp]. *)
Definition aarch64_layout : FrameLayout := {|
  link_offset := 0;
  return_addr_offset := 1;
  sender_sp_offset := 2;
  interpreter_frame_sender_sp_offset := -1;
  interpreter_frame_method_offset := -3;
  interpreter_frame_cache_offset := -7;
  interpreter_frame_locals_offset := -8;
  interpreter_frame_bcp_offset := -9;
  interpreter_frame_initial_sp_offset := -10;
  entry_frame_call_wrapper_offset := -8
|}.

(** ** A synthetic runtime

    A small, fully computable virtual machine on which the functions are run:
    one thread, an interpreter region, a code cache of two units (a compiled
    method and the stub buffer that holds the call stub), one method, no
    pointer authentication. *)
Module Synthetic.

(** Stack from 65536 up to 1048576; the guard zones end at 131072. *)
Definition thread0 : JavaThread :=
  {| stack_base := 1048576; stack_end := 65536;
     stack_reserved_zone_base := 131072 |}.

(** Memory given by the words written so far, zero elsewhere. *)
Fixpoint memory_of (ws : list (address * Z)) : Memory :=
  match ws with
  | [] => fun _ => 0
  | (a, v) :: rest => store (memory_of rest) a v
  end.

Definition in_range (lo hi pc : address) : bool := (lo <=? pc) && (pc <? hi).

Definition interpreter_begin : address := 28672.
Definition interpreter_end : address := 32768.
Definition call_stub_return_address : address := 24576.
Definition return_barrier : address := 20480.
Definition deopt_handler : address := 40000.

(** A compiled method at [36864, 40960) with a frame of 4 words; its
    deoptimisation handler entry sits at 40000. *)
Definition compiled_nmethod : nmethod :=
  {| is_deopt_entry := fun pc => pc =? deopt_handler;
     is_deopt_mh_entry := fun _ => false;
     method_is_method_handle_intrinsic := false |}.

Definition compiled_blob : CodeBlob :=
  {| blob_id := 1;
     is_frame_complete_at := fun pc => 36880 <=? pc;
     code_contains := in_range 36864 40960;
     frame_size := 4;
     is_adapter_blob := false; is_runtime_stub := false;
     is_upcall_stub := false;
     as_nmethod_or_null := Some compiled_nmethod |}.

(** The buffer of stub routines at [24576, 24832): no frame of its own. *)
Definition stub_blob : CodeBlob :=
  {| blob_id := 2;
     is_frame_complete_at := fun _ => true;
     code_contains := in_range 24576 24832;
     frame_size := 0;
     is_adapter_blob := false; is_runtime_stub := false;
     is_upcall_stub := false;
     as_nmethod_or_null := None |}.

Definition find_blob (pc : address) : option CodeBlob :=
  if in_range 36864 40960 pc then Some compiled_blob
  else if in_range 24576 24832 pc then Some stub_blob
  else None.

(** The continuation entry frame every continuation bottoms out in. *)
Definition continuation_entry : frame :=
  {| _sp := 600000; _unextended_sp := 600000; _fp := 600064; _pc := 37000;
     _cb := Some compiled_blob; _deopt_state := not_deoptimized;
     _on_heap := false |}.

(** One method at 16384 with bytecodes at [16640, 16896) and an operand
    stack of 4 slots; its constant-pool cache is at 18432. *)
Definition rt0 : Runtime JavaThread :=
  {| CodeCache_find_blob := find_blob;
     Interpreter_contains := in_range interpreter_begin interpreter_end;
     Interpreter_stackElementSize := 8;
     StubRoutines_returns_to_call_stub := fun pc => pc =? call_stub_return_address;
     Continuation_is_return_barrier_entry := fun pc => pc =? return_barrier;
     Continuation_is_frame_in_continuation := fun _ f => 500000 <=? _sp f;
     Continuation_continuation_bottom_sender := fun _ _ _ => continuation_entry;
     is_entry_frame_valid := fun _ _ => true;
     Method_is_valid_method := fun meth => meth =? 16384;
     Method_max_stack := fun _ => 4;
     Method_validate_bci_from_bcp :=
       fun _ bcp => if in_range 16640 16896 bcp then bcp - 16640 else -1;
     MetaspaceObj_is_valid := fun cp => cp =? 18432;
     pauth_sign_return_address := fun pc => pc;
     pauth_strip_verifiable := fun pc => pc;
     pauth_strip_pointer := fun pc => pc;
     get_deopt_original_pc :=
       fun m f => if _pc f =? deopt_handler
                  then load m (word_add (_unextended_sp f) 1) else nullptr |}.

(** The two validators on the synthetic thread. *)
Definition safe : Memory -> frame -> result bool :=
  safe_for_sender aarch64_layout rt0 thread0.

Definition valid : Memory -> frame -> result bool :=
  is_interpreted_frame_valid aarch64_layout rt0 thread0.

Definition stack_frame (sp unextended_sp fp pc : address)
    (cb : option CodeBlob) : frame :=
  {| _sp := sp; _unextended_sp := unextended_sp; _fp := fp; _pc := pc;
     _cb := cb; _deopt_state := not_deoptimized; _on_heap := false |}.

(** A frame living in a heap stack chunk, outside the thread's stack. *)
Definition heap_frame : frame :=
  {| _sp := 4096; _unextended_sp := 4096; _fp := 0; _pc := 37000;
     _cb := Some compiled_blob; _deopt_state := not_deoptimized;
     _on_heap := true |}.

(** A stack frame whose sp fell into the guard zone. *)
Definition guard_zone_frame : frame :=
  stack_frame 100000 100000 100064 37000 (Some compiled_blob).

(** An interpreted frame with fp at 500000: method, bytecode position,
    cache and locals slots are filled in; its unextended sp is 125 words
    below fp, its raw sp, lowered by the locals of its callee, 2000 words
    below. *)
Definition interpreter_memory : Memory :=
  memory_of [ (499976, 16384); (499928, 16650); (499944, 18432); (499936, 2) ].

Definition deep_interpreted_frame : frame :=
  stack_frame 484000 499000 500000 28700 None.

(** The same frame with sp raised above fp. *)
Definition inverted_interpreted_frame : frame :=
  stack_frame 500008 499000 500000 28700 None.

(** A compiled frame at sp 500000; with 4 words of frame its sender sp is
    500032, the return address slot of its callee is at 499992. *)
Definition compiled_frame : frame :=
  stack_frame 500000 500000 500016 36900 (Some compiled_blob).

(** The callee's return-address slot holds the frame's pc, and the slot
    the synthetic method keeps its original pc in holds it too. *)
Definition deopt_memory : Memory :=
  memory_of [ (499992, 36900); (500008, 36900) ].

(** The frame and the stack after the compiled frame has been patched to
    return to the deoptimisation handler. *)
Definition patched_frame : frame :=
  set_pc (set_deopt_state (set_pc compiled_frame deopt_handler) is_deoptimized)
         36900.

Definition patched_memory : Memory := store deopt_memory 499992 deopt_handler.

(** Nothing written yet: the return-address slot reads null. *)
Definition blank_memory : Memory := memory_of [].

(** A frame in the stub buffer (not at the call stub's return address),
    whose code unit has no frame size. *)
Definition stub_frame : frame :=
  stack_frame 500000 500000 500016 24600 (Some stub_blob).

(** The compiled frame returns into the return barrier. *)
Definition barrier_memory : Memory :=
  memory_of [ (500024, return_barrier); (500016, 500100) ].

(** The compiled frame returns into the call stub; the saved fp equals the
    sender sp, the call-wrapper slot below it points further up the stack. *)
Definition flat_entry_memory : Memory :=
  memory_of [ (500024, call_stub_return_address); (500016, 500032);
              (499968, 500096) ].

(** The compiled frame returns into the call stub of a well-formed entry
    frame: saved fp 500200, call wrapper at 500400. *)
Definition entry_memory : Memory :=
  memory_of [ (500024, call_stub_return_address); (500016, 500200);
              (500136, 500400) ].

(** A frame of native code, unknown to the code cache. *)
Definition native_frame : frame :=
  stack_frame 500000 500000 500064 12345 None.

Definition native_memory : Memory := memory_of [ (500072, 777) ].

(** An anchor recorded at a call-out, pc not yet captured. *)
Definition fresh_anchor : JavaFrameAnchor :=
  {| _last_Java_sp := 500000; _last_Java_fp := 500064; _last_Java_pc := 0 |}.

Definition anchor_memory : Memory := memory_of [ (499992, 37000) ].

Definition walkable_anchor : JavaFrameAnchor :=
  {| _last_Java_sp := 500000; _last_Java_fp := 500064; _last_Java_pc := 37000 |}.

(** The candidates computed for the compiled frame: returning into the
    return barrier, replaced by the continuation's bottom sender, and
    returning into the call stub with a flat and with a proper entry
    frame. *)
Definition barrier_candidate : sender_candidate :=
  {| sender_sp := 500032; sender_unextended_sp := 500032;
     sender_pc := return_barrier; saved_fp := 500100 |}.

Definition bottom_sender_candidate : sender_candidate :=
  {| sender_sp := 600000; sender_unextended_sp := 500032;
     sender_pc := 37000; saved_fp := 500100 |}.

Definition flat_entry_candidate : sender_candidate :=
  {| sender_sp := 500032; sender_unextended_sp := 500032;
     sender_pc := call_stub_return_address; saved_fp := 500032 |}.

Definition entry_candidate : sender_candidate :=
  {| sender_sp := 500032; sender_unextended_sp := 500032;
     sender_pc := call_stub_return_address; saved_fp := 500200 |}.

End Synthetic.

(** ** The synthetic runtime with pointer authentication

    The runtime of [Synthetic] under a signing scheme: a return address is
    signed by setting bit 60 and stripped by clearing it, so that a stripped
    address is left as it is. *)
Module SyntheticPac.

Import Synthetic.

Definition pac_bit : Z := 2 ^ 60.

Definition pac_sign (pc : address) : address := Z.lor pc pac_bit.

Definition pac_strip (pc : address) : address := Z.ldiff pc pac_bit.

Definition rt_pac : Runtime JavaThread :=
  {| CodeCache_find_blob := CodeCache_find_blob rt0;
     Interpreter_contains := Interpreter_contains rt0;
     Interpreter_stackElementSize := Interpreter_stackElementSize rt0;
     StubRoutines_returns_to_call_stub := StubRoutines_returns_to_call_stub rt0;
     Continuation_is_return_barrier_entry :=
       Continuation_is_return_barrier_entry rt0;
     Continuation_is_frame_in_continuation :=
       Continuation_is_frame_in_continuation rt0;
     Continuation_continuation_bottom_sender :=
       Continuation_continuation_bottom_sender rt0;
     is_entry_frame_valid := is_entry_frame_valid rt0;
     Method_is_valid_method := Method_is_valid_method rt0;
     Method_max_stack := Method_max_stack rt0;
     Method_validate_bci_from_bcp := Method_validate_bci_from_bcp rt0;
     MetaspaceObj_is_valid := MetaspaceObj_is_valid rt0;
     pauth_sign_return_address := pac_sign;
     pauth_strip_verifiable := pac_strip;
     pauth_strip_pointer := pac_strip;
     get_deopt_original_pc := get_deopt_original_pc rt0 |}.

(** The callee's return-address slot holds the signed pc of the compiled
    frame; the slot the synthetic method keeps its original pc in holds the
    plain pc. *)
Definition signed_memory : Memory :=
  memory_of [ (499992, pac_sign 36900); (500008, 36900) ].

(** The stack after the compiled frame has been patched to return to the
    deoptimisation handler. *)
Definition signed_patched_memory : Memory :=
  store signed_memory 499992 (pac_sign deopt_handler).

End SyntheticPac.

(** ** Statements put to the test

    Three sentences of the description, written out as they are worded, to be
    compared with what the functions do. *)

(** Every frame whose sp is outside the usable stack is rejected. *)
Definition rejects_every_frame_outside_usable_stack : Prop :=
  forall (Thread : Type) (bounds : StackBoundsOracle Thread)
         (lay : FrameLayout) (rt : Runtime Thread)
         (thread : Thread) (m : Memory) (f : frame),
    is_in_usable_stack thread (_sp f) = false ->
    safe_for_sender lay rt thread m f = Returns false.

(** An interpreted frame is accepted only if, among the other conditions, the
    distance from sp up to fp (counted in words, the smaller of the two
    units) stays within the slack plus the operand stack. *)
Definition valid_only_if_gap_to_sp_bounded : Prop :=
  forall (Thread : Type) (bounds : StackBoundsOracle Thread)
         (lay : FrameLayout) (rt : Runtime Thread)
         (thread : Thread) (m : Memory) (f : frame),
    is_interpreted_frame_valid lay rt thread m f = Returns true ->
    _fp f <> nullptr /\ Z.land (_fp f) (wordSize - 1) = 0 /\
    _sp f <> nullptr /\ Z.land (_sp f) (wordSize - 1) = 0 /\
    _sp f < _fp f /\
    word_diff (_fp f) (_sp f)
      <= 1024 + Method_max_stack rt (safe_interpreter_frame_method lay m f)
                * Interpreter_stackElementSize rt /\
    Method_is_valid_method rt (safe_interpreter_frame_method lay m f) = true /\
    0 <= Method_validate_bci_from_bcp rt (safe_interpreter_frame_method lay m f)
           (interpreter_frame_bcp lay m f) /\
    MetaspaceObj_is_valid rt (load m (interpreter_frame_cache_addr lay f)) = true /\
    is_in_stack_range_incl thread (interpreter_frame_locals lay m f) (_fp f) = true.

(** A sender that returns to the call stub is accepted exactly when the
    call-wrapper record lies in the stack strictly above the sender's fp. *)
Definition call_stub_sender_safe_iff_wrapper_in_frame : Prop :=
  forall (Thread : Type) (bounds : StackBoundsOracle Thread)
         (lay : FrameLayout) (rt : Runtime Thread)
         (thread : Thread) (m : Memory) (f : frame) (cb : CodeBlob)
         (c' : sender_candidate) (sender_blob : CodeBlob),
    reaches_sender_check lay rt thread m f cb c' ->
    Interpreter_contains rt (sender_pc c') = false ->
    CodeCache_find_blob rt (sender_pc c') = Some sender_blob ->
    code_contains sender_blob (sender_pc c') = true ->
    is_adapter_blob sender_blob = false ->
    is_upcall_stub sender_blob = false ->
    StubRoutines_returns_to_call_stub rt (sender_pc c') = true ->
    (safe_for_sender lay rt thread m f = Returns true <->
     is_in_stack_range_excl thread
       (entry_frame_call_wrapper lay m
          (frame_of rt (sender_sp c') (sender_unextended_sp c')
                    (saved_fp c') (sender_pc c')))
       (saved_fp c') = true).

(** * More of the frame class

    The interpreter-frame slot accessors, the sender of interpreted, entry
    and upcall-stub frames, and the constructor of the log stream output. *)

(** A frame that differs from [f] in its fp only. *)
Definition set_fp (f : frame) (fp : address) : frame :=
  {| _sp := _sp f; _unextended_sp := _unextended_sp f; _fp := fp;
     _pc := _pc f; _cb := _cb f; _deopt_state := _deopt_state f;
     _on_heap := _on_heap f |}.

(** The remaining interpreter-frame offsets of [frame_aarch64.hpp], again a
    parameter; [aarch64_interpreter_layout] gives the platform's values. *)
Record InterpreterLayout : Type := {
  interpreter_frame_last_sp_offset : Z;
  interpreter_frame_extended_sp_offset : Z;
  interpreter_frame_monitor_block_top_offset : Z;
  interpreter_frame_monitor_block_bottom_offset : Z
}.

Definition aarch64_interpreter_layout : InterpreterLayout := {|
  interpreter_frame_last_sp_offset := -2;
  interpreter_frame_extended_sp_offset := -5;
  interpreter_frame_monitor_block_top_offset := -10;
  interpreter_frame_monitor_block_bottom_offset := -10
|}.

(** The assertions of the functions of this part, named after their text;
    [assert_within] carries an assertion of a function they call. *)
Inductive frame_assert : Type :=
| assert_interpreted_frame_expected   (* "interpreted frame expected" *)
| assert_monitor_end_above_sp         (* "monitor end should be above the stack pointer" *)
| assert_monitor_end_below_fp         (* "monitor end should be strictly below the frame pointer" *)
| assert_monitor_block_top            (* at_absolute(top) <= top, no text *)
| assert_map_must_be_set              (* "map must be set" *)
| assert_next_Java_fp_non_zero        (* "next Java fp must be non zero" *)
| assert_must_be_upcall_stub          (* "must be optimzed entry frame" *)
| assert_must_have_frame_anchor       (* "must have a frame anchor to go back to" *)
| assert_above_this_frame             (* "must be above this frame on stack" *)
| assert_set_by_clear                 (* "should be set by clear" *)
| assert_within (e : vm_assert).

Inductive checked (A : Type) : Type :=
| Done (a : A)
| Stopped (e : frame_assert).

Arguments Done {A} a.
Arguments Stopped {A} e.

(** What the sender functions ask of a [RegisterMap] and of the code around
    them, all defined elsewhere: the map's thread and modes, [clear],
    [update_map_with_saved_link], [Continuation::top_frame], the anchor an
    upcall stub keeps for a frame, the anchor of a call wrapper, and whether
    the build has C2 or JVMCI. *)
Record WalkRuntime (Thread RegisterMap : Type) : Type := {
  map_thread : RegisterMap -> Thread;
  map_update_map : RegisterMap -> bool;
  map_walk_cont : RegisterMap -> bool;
  map_clear : RegisterMap -> RegisterMap;
  map_include_argument_oops : RegisterMap -> bool;
  update_map_with_saved_link : RegisterMap -> address -> RegisterMap;
  Continuation_top_frame : frame -> RegisterMap -> frame;
  UpcallStub_jfa_for_frame : CodeBlob -> frame -> JavaFrameAnchor;
  JavaCallWrapper_anchor : address -> JavaFrameAnchor;
  COMPILER2_OR_JVMCI : bool
}.

Arguments map_thread {Thread RegisterMap} _ _.
Arguments map_update_map {Thread RegisterMap} _ _.
Arguments map_walk_cont {Thread RegisterMap} _ _.
Arguments map_clear {Thread RegisterMap} _ _.
Arguments map_include_argument_oops {Thread RegisterMap} _ _.
Arguments update_map_with_saved_link {Thread RegisterMap} _ _ _.
Arguments Continuation_top_frame {Thread RegisterMap} _ _ _.
Arguments UpcallStub_jfa_for_frame {Thread RegisterMap} _ _ _.
Arguments JavaCallWrapper_anchor {Thread RegisterMap} _ _.
Arguments COMPILER2_OR_JVMCI {Thread RegisterMap} _.

(** What a sender function hands back: the sender, whether its sp is marked
    trusted, and the anchor and the map as the call leaves them. *)
Record walk_step (RegisterMap : Type) : Type := {
  ws_frame : frame;
  ws_sp_is_trusted : bool;
  ws_anchor : option JavaFrameAnchor;
  ws_map : RegisterMap
}.

Arguments ws_frame {RegisterMap} _.
Arguments ws_sp_is_trusted {RegisterMap} _.
Arguments ws_anchor {RegisterMap} _.
Arguments ws_map {RegisterMap} _.

Section SlotsAndSenders.

Context {Thread RegisterMap : Type}.
Variable lay : FrameLayout.
Variable ilay : InterpreterLayout.
Variable rt : Runtime Thread.
Variable wr : WalkRuntime Thread RegisterMap.

(** Modelled from the spec: the one-line slot primitives of the shared
    [frame.hpp] are missing.  [ptr_at_put] writes an [intptr_t] into the slot
    [addr_at(index)], [at_absolute] reads the slot as a signed word,
    [at_relative] reads it as a word offset from fp and gives the address it
    stands for. *)
Definition ptr_at_put (m : Memory) (f : frame) (index : Z) (value : Z) : Memory :=
  store m (addr_at f index) (wrap64 value).

Definition at_absolute (m : Memory) (f : frame) (index : Z) : Z :=
  signed64 (load m (addr_at f index)).

Definition at_relative (m : Memory) (f : frame) (index : Z) : address :=
  word_add (_fp f) (load m (addr_at f index)).

(** Modelled from the spec: [frame::at] of the shared [frame.hpp] is
    missing.  For a frame on the stack it is the word in the slot; for a heap
    frame, whose internal addresses are kept relative to fp, it is the
    address the slot stands for. *)
Definition frame_at (m : Memory) (f : frame) (index : Z) : Z :=
  if is_heap_frame f then at_relative m f index else at_ m f index.

(** *** The interpreter-frame slots (lines 321-375) *)

Definition interpreter_frame_set_locals
    (m : Memory) (f : frame) (locs : address) : checked Memory :=
  if negb (is_interpreted_frame rt f)
  then Stopped assert_interpreted_frame_expected else
  (* set relativized locals *)
  Done (ptr_at_put m f (interpreter_frame_locals_offset lay)
                   (word_diff locs (_fp f))).

Definition interpreter_frame_sender_sp (m : Memory) (f : frame) : checked address :=
  if negb (is_interpreted_frame rt f)
  then Stopped assert_interpreted_frame_expected else
  Done (frame_at m f (interpreter_frame_sender_sp_offset lay)).

Definition set_interpreter_frame_sender_sp
    (m : Memory) (f : frame) (sender_sp : address) : checked Memory :=
  if negb (is_interpreted_frame rt f)
  then Stopped assert_interpreted_frame_expected else
  Done (ptr_at_put m f (interpreter_frame_sender_sp_offset lay) sender_sp).

Definition interpreter_frame_monitor_begin (f : frame) : address :=
  addr_at f (interpreter_frame_monitor_block_bottom_offset ilay).

Definition interpreter_frame_monitor_end (m : Memory) (f : frame) : checked address :=
  let result := at_relative m f (interpreter_frame_monitor_block_top_offset ilay) in
  (* make sure the pointer points inside the frame *)
  if negb (_sp f <=? result) then Stopped assert_monitor_end_above_sp else
  if negb (result <? _fp f) then Stopped assert_monitor_end_below_fp else
  Done result.

Definition interpreter_frame_set_monitor_end
    (m : Memory) (f : frame) (value : address) : checked Memory :=
  if negb (is_interpreted_frame rt f)
  then Stopped assert_interpreted_frame_expected else
  (* set relativized monitor_block_top *)
  let m' := ptr_at_put m f (interpreter_frame_monitor_block_top_offset ilay)
                       (word_diff value (_fp f)) in
  if negb (at_absolute m' f (interpreter_frame_monitor_block_top_offset ilay)
             <=? interpreter_frame_monitor_block_top_offset ilay)
  then Stopped assert_monitor_block_top else
  Done m'.

Definition interpreter_frame_set_last_sp
    (m : Memory) (f : frame) (sp : address) : checked Memory :=
  if negb (is_interpreted_frame rt f)
  then Stopped assert_interpreted_frame_expected else
  (* set relativized last_sp *)
  Done (ptr_at_put m f (interpreter_frame_last_sp_offset ilay)
                   (if negb (sp =? nullptr) then word_diff sp (_fp f) else 0)).

Definition interpreter_frame_set_extended_sp
    (m : Memory) (f : frame) (sp : address) : checked Memory :=
  if negb (is_interpreted_frame rt f)
  then Stopped assert_interpreted_frame_expected else
  (* set relativized extended_sp *)
  Done (ptr_at_put m f (interpreter_frame_extended_sp_offset ilay)
                   (word_diff sp (_fp f))).

(** *** Senders *)

(** Modelled from the spec: [frame::sender_sp], [frame::link] and
    [frame::sender_pc_maybe_signed] of [frame_aarch64.inline.hpp] are
    missing.  The raw sender sp is the address of a fixed fp-relative slot;
    the saved fp (link) and the possibly signed sender pc are read from fixed
    fp-relative slots, the ones [safe_for_sender] reads at lines 138-141. *)
Definition frame_sender_sp (f : frame) : address :=
  addr_at f (sender_sp_offset lay).

Definition link (m : Memory) (f : frame) : address :=
  at_ m f (link_offset lay).

Definition sender_pc_maybe_signed (m : Memory) (f : frame) : address :=
  at_ m f (return_addr_offset lay).

(** Modelled from the spec: the three-address constructor
    [frame(sp, fp, pc)] goes through [init] (as the debug constructor of
    line 819 does), which is missing: a frame materialised from an anchor
    has its unextended sp equal to its sp. *)
Definition frame_init (sp fp pc : address) : frame :=
  frame_of rt sp sp fp pc.

(** [frame::sender_for_interpreter_frame] (lines 501-529). *)
Definition sender_for_interpreter_frame
    (m : Memory) (f : frame) (map : RegisterMap) : checked (walk_step RegisterMap) :=
  (* SP is the raw SP from the sender after adapter or interpreter extension *)
  let sender_sp := frame_sender_sp f in
  (* This is the sp before any possible extension (adapter/locals) *)
  match interpreter_frame_sender_sp m f with
  | Stopped e => Stopped e
  | Done unextended_sp =>
    let sender_fp := link m f in
    let map1 :=
      if COMPILER2_OR_JVMCI wr && map_update_map wr map
      then update_map_with_saved_link wr map (addr_at f (link_offset lay))
      else map in
    let sender_pc := pauth_strip_verifiable rt (sender_pc_maybe_signed m f) in
    if Continuation_is_return_barrier_entry rt sender_pc then
      if map_walk_cont wr map1 then (* about to walk into an h-stack *)
        Done {| ws_frame := Continuation_top_frame wr f map1;
                ws_sp_is_trusted := false; ws_anchor := None; ws_map := map1 |}
      else
        Done {| ws_frame := Continuation_continuation_bottom_sender rt
                              (map_thread wr map1) f sender_sp;
                ws_sp_is_trusted := false; ws_anchor := None; ws_map := map1 |}
    else
      Done {| ws_frame := frame_of rt sender_sp unextended_sp sender_fp sender_pc;
              ws_sp_is_trusted := false; ws_anchor := None; ws_map := map1 |}
  end.

(** Modelled from the spec: [frame::entry_frame_is_first] is missing; the
    outermost entry frame is the one whose call wrapper has no call-out
    recorded in its anchor. *)
Definition entry_frame_is_first (m : Memory) (f : frame) : bool :=
  last_Java_sp (JavaCallWrapper_anchor wr (entry_frame_call_wrapper lay m f))
    =? nullptr.

(** [frame::sender_for_entry_frame] (lines 377-393).  The anchor is updated in
    place by [make_walkable]; the step hands it back. *)
Definition sender_for_entry_frame
    (m : Memory) (f : frame) (map : option RegisterMap)
    : checked (walk_step RegisterMap) :=
  match map with
  | None => Stopped assert_map_must_be_set
  | Some map =>
    (* Java frame called from C; skip all C frames *)
    let jfa := JavaCallWrapper_anchor wr (entry_frame_call_wrapper lay m f) in
    if entry_frame_is_first m f then Stopped assert_next_Java_fp_non_zero else
    if negb (_sp f <? last_Java_sp jfa) then Stopped assert_above_this_frame else
    (* this nested anchor is obviously walkable *)
    match make_walkable m jfa with
    | Fatal e => Stopped (assert_within e)
    | Returns o =>
      let jfa' := anchor_after o in
      let map1 := map_clear wr map in
      if negb (map_include_argument_oops wr map1) then Stopped assert_set_by_clear else
      Done {| ws_frame := frame_init (last_Java_sp jfa') (_last_Java_fp jfa')
                                     (last_Java_pc jfa');
              ws_sp_is_trusted := true;
              ws_anchor := Some jfa'; ws_map := map1 |}
    end
  end.

(** [frame::upcall_stub_frame_is_first] (lines 402-407). *)
Definition upcall_stub_frame_is_first (f : frame) : checked bool :=
  if negb (is_upcall_stub_frame f) then Stopped assert_must_be_upcall_stub else
  match _cb f with
  | Some blob => Done (last_Java_sp (UpcallStub_jfa_for_frame wr blob f) =? nullptr)
  | None => Stopped assert_must_be_upcall_stub
  end.

(** [frame::sender_for_upcall_stub_frame] (lines 409-425). *)
Definition sender_for_upcall_stub_frame
    (m : Memory) (f : frame) (map : option RegisterMap)
    : checked (walk_step RegisterMap) :=
  match map with
  | None => Stopped assert_map_must_be_set
  | Some map =>
    match _cb f with
    | None => Stopped assert_must_be_upcall_stub
    | Some blob =>
      if negb (is_upcall_stub blob) then Stopped assert_must_be_upcall_stub else
      let jfa := UpcallStub_jfa_for_frame wr blob f in
      match upcall_stub_frame_is_first f with
      | Stopped e => Stopped e
      | Done true => Stopped assert_must_have_frame_anchor
      | Done false =>
        if negb (_sp f <? last_Java_sp jfa) then Stopped assert_above_this_frame else
        match make_walkable m jfa with
        | Fatal e => Stopped (assert_within e)
        | Returns o =>
          let jfa' := anchor_after o in
          let map1 := map_clear wr map in
          if negb (map_include_argument_oops wr map1)
          then Stopped assert_set_by_clear else
          Done {| ws_frame := frame_init (last_Java_sp jfa') (_last_Java_fp jfa')
                                         (last_Java_pc jfa');
                  ws_sp_is_trusted := false;
                  ws_anchor := Some jfa'; ws_map := map1 |}
        end
      end
    end
  end.

End SlotsAndSenders.

(** A completed call of one of the four setters that leave the monitor block
    alone took [m] to [m'] by writing the slot [i] of [f]. *)
Definition writes_slot {Thread : Type}
    (lay : FrameLayout) (ilay : InterpreterLayout) (rt : Runtime Thread)
    (m : Memory) (f : frame) (m' : Memory) (i : Z) : Prop :=
  (exists locs, interpreter_frame_set_locals lay rt m f locs = Done m'
                /\ i = interpreter_frame_locals_offset lay) \/
  (exists v, set_interpreter_frame_sender_sp lay rt m f v = Done m'
             /\ i = interpreter_frame_sender_sp_offset lay) \/
  (exists sp, interpreter_frame_set_last_sp ilay rt m f sp = Done m'
              /\ i = interpreter_frame_last_sp_offset ilay) \/
  (exists sp, interpreter_frame_set_extended_sp ilay rt m f sp = Done m'
              /\ i = interpreter_frame_extended_sp_offset ilay).

(** ** The log stream output ([logFileStreamOutput.hpp]) *)

(** [a[i] = v] on an array carried as a list. *)
Fixpoint array_put (a : list Z) (i : nat) (v : Z) : list Z :=
  match a, i with
  | [], _ => []
  | _ :: rest, O => v :: rest
  | x :: rest, S j => x :: array_put rest j v
  end.

Record LogFileStreamOutput : Type := {
  _fold_multilines : bool;
  _write_error_is_shown : bool;
  _stream : Z;
  _stream_semaphore : Z;
  _decorator_padding : list Z
}.

(** The loop [for (i = 0; i < Count; i++) _decorator_padding[i] = 0], run
    from index [i] for [n] more rounds. *)
Fixpoint clear_padding (padding : list Z) (i n : nat) : list Z :=
  match n with
  | O => padding
  | S k => clear_padding (array_put padding i 0) (S i) k
  end.

(** The constructor [LogFileStreamOutput(FILE* stream)] (lines 56-62), on the
    storage the object is built in: [Count] is [LogDecorators::Count],
    [padding] what the array held before. *)
Definition new_LogFileStreamOutput
    (Count : nat) (stream : Z) (padding : list Z) : LogFileStreamOutput :=
  {| _fold_multilines := false;
     _write_error_is_shown := false;
     _stream := stream;
     _stream_semaphore := 1;
     _decorator_padding := clear_padding padding 0 Count |}.

(** ** More synthetic inputs *)

Module SyntheticWalk.

Import Synthetic.

(** The compiled frame returns into the interpreter: the saved fp 500200
    heads an interpreted frame whose method, bytecode position, cache and
    locals slots are filled in. *)
Definition interpreted_sender_memory : Memory :=
  memory_of [ (500024, 28700); (500016, 500200);
              (500176, 16384); (500128, 16650); (500144, 18432); (500136, 2) ].

Definition interpreted_candidate : sender_candidate :=
  {| sender_sp := 500032; sender_unextended_sp := 500032;
     sender_pc := 28700; saved_fp := 500200 |}.

(** The interpreted frame at fp 500000 with its sender's unextended sp,
    saved fp and return address in place. *)
Definition walk_memory : Memory :=
  memory_of [ (499992, 500100); (500000, 500400); (500008, 37000) ].

Definition walk_candidate : sender_candidate :=
  {| sender_sp := 500016; sender_unextended_sp := 500100;
     sender_pc := 37000; saved_fp := 500400 |}.

(** A register map reduced to what the sender functions look at. *)
Record SimpleMap : Type := {
  sm_thread : JavaThread;
  sm_update_map : bool;
  sm_walk_cont : bool;
  sm_include_argument_oops : bool;
  sm_fp_location : option address
}.

Definition map0 : SimpleMap :=
  {| sm_thread := thread0; sm_update_map := true; sm_walk_cont := false;
     sm_include_argument_oops := false; sm_fp_location := None |}.

(** An upcall stub at [45056, 45312). *)
Definition upcall_blob : CodeBlob :=
  {| blob_id := 3;
     is_frame_complete_at := fun _ => true;
     code_contains := in_range 45056 45312;
     frame_size := 6;
     is_adapter_blob := false; is_runtime_stub := false;
     is_upcall_stub := true;
     as_nmethod_or_null := None |}.

(** Every upcall and every call wrapper of the synthetic runtime goes back to
    the anchor recorded at sp 500000. *)
Definition wr0 : WalkRuntime JavaThread SimpleMap :=
  {| map_thread := sm_thread;
     map_update_map := sm_update_map;
     map_walk_cont := sm_walk_cont;
     map_clear := fun map =>
       {| sm_thread := sm_thread map; sm_update_map := sm_update_map map;
          sm_walk_cont := sm_walk_cont map;
          sm_include_argument_oops := true; sm_fp_location := None |};
     map_include_argument_oops := sm_include_argument_oops;
     update_map_with_saved_link := fun map a =>
       {| sm_thread := sm_thread map; sm_update_map := sm_update_map map;
          sm_walk_cont := sm_walk_cont map;
          sm_include_argument_oops := sm_include_argument_oops map;
          sm_fp_location := Some a |};
     Continuation_top_frame := fun _ _ => continuation_entry;
     UpcallStub_jfa_for_frame := fun _ _ => fresh_anchor;
     JavaCallWrapper_anchor := fun _ => fresh_anchor;
     COMPILER2_OR_JVMCI := true |}.

Definition upcall_frame : frame :=
  stack_frame 400000 400000 400064 45100 (Some upcall_blob).

Definition entry_frame : frame :=
  stack_frame 400000 400000 400064 call_stub_return_address (Some stub_blob).

(** The interpreted frame at fp 500000 as a frame in a heap stack chunk. *)
Definition heap_interpreted_frame : frame :=
  {| _sp := 484000; _unextended_sp := 499000; _fp := 500000; _pc := 28700;
     _cb := None; _deopt_state := not_deoptimized; _on_heap := true |}.

(** The compiled callee of the compiled frame: four words of frame below
    sp 500000. *)
Definition callee_frame : frame :=
  stack_frame 499968 499968 499984 37100 (Some compiled_blob).

Definition callee_candidate : sender_candidate :=
  {| sender_sp := 500000; sender_unextended_sp := 500000;
     sender_pc := deopt_handler; saved_fp := 0 |}.

End SyntheticWalk.

(** * Properties *)

(** ** Pointer arithmetic and memory *)

Lemma load_store_same (m : Memory) (a : address) (v : Z) :
  load (store m a v) a = v.
Proof. unfold load, store. now rewrite Z.eqb_refl. Qed.

Lemma load_store_other (m : Memory) (a b : address) (v : Z) :
  b <> a -> load (store m a v) b = load m b.
Proof.
  intros Hne. unfold load, store.
  destruct (Z.eqb_spec b a); [contradiction | reflexivity].
Qed.

Lemma store_store_same (m : Memory) (a : address) (v : Z) :
  forall x, store (store m a v) a v x = store m a v x.
Proof. intros x. unfold store. now destruct (x =? a). Qed.

Lemma byte_add_word_add (p : address) (i : Z) :
  byte_add p (i * wordSize) = word_add p i.
Proof. unfold byte_add, word_add. f_equal. lia. Qed.

(** ** The stack ranges of a [JavaThread] *)

Lemma is_in_stack_range_spec (t : JavaThread) (adr limit : address) (inclusive : bool) :
  is_in_stack_range t adr limit inclusive = true <->
  adr < stack_base t /\ (if inclusive then limit <= adr else limit < adr).
Proof.
  unfold is_in_stack_range. rewrite andb_true_iff, Z.ltb_lt.
  destruct inclusive; [rewrite Z.leb_le | rewrite Z.ltb_lt]; tauto.
Qed.

Lemma JavaThread_stack_range_excl (t : JavaThread) (adr limit : address) :
  is_in_stack_range_excl t adr limit = true <-> limit < adr < stack_base t.
Proof. cbn. rewrite is_in_stack_range_spec. tauto. Qed.

Lemma JavaThread_stack_range_incl (t : JavaThread) (adr limit : address) :
  is_in_stack_range_incl t adr limit = true <-> limit <= adr < stack_base t.
Proof. cbn. rewrite is_in_stack_range_spec. tauto. Qed.

Lemma JavaThread_full_stack (t : JavaThread) (adr : address) :
  is_in_full_stack_checked t adr = true <-> stack_end t <= adr < stack_base t.
Proof. cbn. rewrite is_in_stack_range_spec. tauto. Qed.

Lemma JavaThread_usable_stack (t : JavaThread) (adr : address) :
  is_in_usable_stack t adr = true <->
  stack_reserved_zone_base t <= adr < stack_base t.
Proof. cbn. rewrite is_in_stack_range_spec. tauto. Qed.

(** ** [safe_for_sender] *)

(** Splits on every test the goal still branches on. *)
Ltac split_tests :=
  repeat match goal with
         | |- context [if ?b then _ else _] => destruct b eqn:?
         | |- context [match ?o with Some _ => _ | None => _ end] =>
             destruct o eqn:?
         end.

Section SafeForSender.

Context {Thread : Type} {bounds : StackBoundsOracle Thread}.
Variable lay : FrameLayout.
Variable rt : Runtime Thread.

(** What the function does once the candidate sender is in hand. *)
Lemma safe_for_sender_at_candidate thread m f cb c :
  reaches_candidate lay rt thread m f cb c ->
  safe_for_sender lay rt thread m f =
    match through_return_barrier rt thread f c with
    | None => Returns false
    | Some c' => check_sender lay rt thread m c'
    end.
Proof.
  intros (Hheap & Husable & Hfull & Hcb & Hcomplete & Hcontains
          & Hentry & Hupcall & Hcand).
  unfold safe_for_sender.
  rewrite Hheap, Husable, Hfull, Hcb. cbn [negb].
  rewrite Hcomplete, Hcontains, Hentry, Hupcall, Hcand. reflexivity.
Qed.

Lemma safe_for_sender_at_sender_check thread m f cb c' :
  reaches_sender_check lay rt thread m f cb c' ->
  safe_for_sender lay rt thread m f = check_sender lay rt thread m c'.
Proof.
  intros (c & Hreach & Hbarrier).
  rewrite (safe_for_sender_at_candidate _ _ _ _ _ Hreach).
  now rewrite Hbarrier.
Qed.

(** C1 (as amended): for every frame that is not a heap frame and whose sp
    lies outside the owning thread's usable-stack range,
    [safe_for_sender] returns false. *)
Theorem safe_for_sender_sp_outside_usable_stack thread m f :
  is_heap_frame f = false ->
  is_in_usable_stack thread (_sp f) = false ->
  safe_for_sender lay rt thread m f = Returns false.
Proof.
  intros Hheap Husable. unfold safe_for_sender.
  now rewrite Hheap, Husable.
Qed.

(** C9: for every frame classified as a heap frame, [safe_for_sender]
    returns true at once: whatever sp, unextended sp, fp and pc are, and
    whatever the stack bounds, the memory and the code cache would answer,
    none of them is consulted. *)
Theorem safe_for_sender_heap_frame thread m f :
  is_heap_frame f = true ->
  safe_for_sender lay rt thread m f = Returns true.
Proof.
  intros Hheap. unfold safe_for_sender. now rewrite Hheap.
Qed.

(** C7: when no code unit resolves for the frame's pc, and sp and
    unextended sp have passed the stack-region checks, [safe_for_sender]
    returns true iff fp lies strictly between sp and the stack top, the
    return-address slot at the fixed offset from fp is within the thread's
    stack, and the word stored in that slot is non-null; it returns false
    otherwise. *)
Theorem safe_for_sender_native_frame thread m f :
  is_heap_frame f = false ->
  _cb f = None ->
  is_in_usable_stack thread (_sp f) = true ->
  is_in_full_stack_checked thread (_unextended_sp f) = true ->
  let slot := word_add (_fp f) (return_addr_offset lay) in
  safe_for_sender lay rt thread m f =
    Returns (is_in_stack_range_excl thread (_fp f) (_sp f)
             && is_in_full_stack_checked thread slot
             && negb (load m slot =? nullptr))
  /\ (safe_for_sender lay rt thread m f = Returns true <->
      is_in_stack_range_excl thread (_fp f) (_sp f) = true /\
      is_in_full_stack_checked thread slot = true /\
      load m slot <> nullptr).
Proof.
  intros Hheap Hcb Husable Hfull slot.
  assert (Heq : safe_for_sender lay rt thread m f =
                Returns (is_in_stack_range_excl thread (_fp f) (_sp f)
                         && is_in_full_stack_checked thread slot
                         && negb (load m slot =? nullptr))).
  { unfold safe_for_sender, fp_safe, at_, addr_at.
    rewrite Hheap, Husable, Hfull, Hcb, byte_add_word_add. cbn [negb].
    fold slot.
    destruct (is_in_stack_range_excl thread (_fp f) (_sp f));
      destruct (is_in_full_stack_checked thread slot);
      destruct (load m slot =? nullptr); reflexivity. }
  split; [exact Heq |].
  rewrite Heq. split.
  - intros H. injection H as H.
    apply andb_true_iff in H as [H Hnull].
    apply andb_true_iff in H as [Hexcl Hslot].
    repeat split; try assumption.
    apply negb_true_iff in Hnull. now apply Z.eqb_neq.
  - intros (Hexcl & Hslot & Hnull).
    rewrite Hexcl, Hslot. apply Z.eqb_neq in Hnull. now rewrite Hnull.
Qed.

(** C4: for a stack frame known to the code cache that is neither
    interpreted nor an entry nor an upcall-stub frame, a code unit with
    [frame_size() <= 0] makes [safe_for_sender] return false; the candidate
    sender sp is [unextended_sp + frame_size()], and when it does not lie
    in the thread's full stack region the function returns false. *)
Theorem safe_for_sender_compiled_frame_size thread m f cb :
  is_heap_frame f = false ->
  _cb f = Some cb ->
  is_interpreted_frame rt f = false ->
  is_entry_frame rt f = false ->
  is_upcall_stub_frame f = false ->
  (frame_size cb <= 0 ->
   safe_for_sender lay rt thread m f = Returns false) /\
  (is_in_full_stack_checked thread
     (word_add (_unextended_sp f) (frame_size cb)) = false ->
   safe_for_sender lay rt thread m f = Returns false) /\
  (forall c, candidate_sender lay rt thread m f cb = Some c ->
     sender_sp c = word_add (_unextended_sp f) (frame_size cb) /\
     0 < frame_size cb /\
     is_in_full_stack_checked thread (sender_sp c) = true).
Proof.
  intros Hheap Hcb Hinterp Hentry Hupcall.
  split; [| split].
  - intros Hsize. apply Z.leb_le in Hsize.
    unfold safe_for_sender, candidate_sender.
    rewrite Hheap, Hcb, Hinterp, Hentry, Hupcall, Hsize.
    split_tests; reflexivity.
  - intros Hout.
    unfold safe_for_sender, candidate_sender.
    rewrite Hheap, Hcb, Hinterp, Hentry, Hupcall, Hout. cbn [negb].
    split_tests; reflexivity.
  - intros c. unfold candidate_sender. rewrite Hinterp.
    destruct (frame_size cb <=? 0) eqn:Hsize; [discriminate |].
    destruct (is_in_full_stack_checked thread
                (word_add (_unextended_sp f) (frame_size cb))) eqn:Hin;
      [| discriminate].
    cbn [negb]. intros Hc. injection Hc as <-. cbn.
    apply Z.leb_gt in Hsize. auto.
Qed.

End SafeForSender.

Section CandidateSender.

Context {Thread : Type} {bounds : StackBoundsOracle Thread}.
Variable lay : FrameLayout.
Variable rt : Runtime Thread.

(** C5: when the computed candidate sender pc equals the continuation
    return-barrier entry, [safe_for_sender] returns false unless
    [Continuation::is_frame_in_continuation] confirms that the frame belongs
    to a continuation; when it does, the candidate's sp and pc are replaced
    by those of [Continuation::continuation_bottom_sender] (called with the
    computed sender sp) and all further checking is done on the replaced
    candidate. *)
Theorem safe_for_sender_return_barrier thread m f cb c :
  reaches_candidate lay rt thread m f cb c ->
  Continuation_is_return_barrier_entry rt (sender_pc c) = true ->
  let s := Continuation_continuation_bottom_sender rt thread f (sender_sp c) in
  (Continuation_is_frame_in_continuation rt thread f = false ->
   safe_for_sender lay rt thread m f = Returns false) /\
  (Continuation_is_frame_in_continuation rt thread f = true ->
   safe_for_sender lay rt thread m f =
     check_sender lay rt thread m
       {| sender_sp := _sp s;
          sender_unextended_sp := sender_unextended_sp c;
          sender_pc := _pc s;
          saved_fp := saved_fp c |}).
Proof.
  intros Hreach Hbarrier s.
  rewrite (safe_for_sender_at_candidate _ _ _ _ _ _ _ Hreach).
  unfold through_return_barrier. rewrite Hbarrier.
  split; intros Hin; rewrite Hin; reflexivity.
Qed.

(** C6 (as amended): when the candidate sender pc is not inside the
    interpreter, [safe_for_sender] returns false unless a code unit
    resolves for a non-null sender pc and contains it; it returns false if
    that unit is an adapter blob; if the sender pc is the
    returns-to-call-stub address it returns true iff the candidate's saved
    fp lies in the stack strictly above the candidate sender sp and the
    call-wrapper record's address lies in the stack strictly above that fp;
    otherwise it returns false if the unit is an upcall stub, or a compiled
    method at a deopt entry, at a deopt-method-handle entry, or of a
    method-handle intrinsic, or not a compiled method at all; it never
    returns true for a unit with [frame_size() <= 0] (a compiled method of
    that size stops at the assertion that guards it); otherwise it returns
    true. *)
Theorem safe_for_sender_code_cache_sender thread m f cb c' :
  reaches_sender_check lay rt thread m f cb c' ->
  Interpreter_contains rt (sender_pc c') = false ->
  let pc := sender_pc c' in
  let R := safe_for_sender lay rt thread m f in
  let sender := frame_of rt (sender_sp c') (sender_unextended_sp c')
                         (saved_fp c') pc in
  let at_deopt (nm : nmethod) :=
    is_deopt_mh_entry nm pc || is_deopt_entry nm pc
    || method_is_method_handle_intrinsic nm in
  (pc = nullptr \/ CodeCache_find_blob rt pc = None -> R = Returns false) /\
  (forall sender_blob,
     CodeCache_find_blob rt pc = Some sender_blob -> pc <> nullptr ->
     (code_contains sender_blob pc = false -> R = Returns false) /\
     (is_adapter_blob sender_blob = true -> R = Returns false) /\
     (code_contains sender_blob pc = true ->
      is_adapter_blob sender_blob = false ->
      (StubRoutines_returns_to_call_stub rt pc = true ->
       R = Returns
             (is_in_stack_range_excl thread (saved_fp c') (sender_sp c')
              && is_in_stack_range_excl thread
                   (entry_frame_call_wrapper lay m sender) (saved_fp c'))) /\
      (StubRoutines_returns_to_call_stub rt pc = false ->
       (is_upcall_stub sender_blob = true -> R = Returns false) /\
       (forall nm, as_nmethod_or_null sender_blob = Some nm ->
                   at_deopt nm = true -> R = Returns false) /\
       (is_nmethod sender_blob = false -> R = Returns false) /\
       (frame_size sender_blob <= 0 -> R <> Returns true) /\
       (forall nm, as_nmethod_or_null sender_blob = Some nm ->
                   is_upcall_stub sender_blob = false ->
                   at_deopt nm = false ->
          (frame_size sender_blob <= 0 ->
           R = Fatal assert_should_count_return_address) /\
          (0 < frame_size sender_blob -> R = Returns true))))).
Proof.
  intros Hreach Hinterp pc R sender at_deopt.
  assert (HR : R = check_code_cache_sender lay rt thread m c').
  { unfold R. rewrite (safe_for_sender_at_sender_check _ _ _ _ _ _ _ Hreach).
    unfold check_sender. now rewrite Hinterp. }
  rewrite HR. unfold check_code_cache_sender. fold pc.
  split.
  { intros [Hnull | Hnone].
    - rewrite Hnull. destruct (CodeCache_find_blob rt nullptr); reflexivity.
    - now rewrite Hnone. }
  intros sender_blob Hblob Hpc. rewrite Hblob.
  apply Z.eqb_neq in Hpc. rewrite Hpc.
  split; [intros Hc; now rewrite Hc |].
  split.
  { intros Ha. rewrite Ha. now destruct (code_contains sender_blob pc). }
  intros Hc Ha. rewrite Hc, Ha. cbn [negb].
  split.
  { intros Hstub. rewrite Hstub. fold sender.
    now destruct (is_in_stack_range_excl thread (saved_fp c') (sender_sp c')). }
  intros Hstub. rewrite Hstub.
  split; [intros Hu; now rewrite Hu |].
  split.
  { intros nm Hnm Hd. rewrite Hnm. fold (at_deopt nm). rewrite Hd.
    now destruct (is_upcall_stub sender_blob). }
  split.
  { unfold is_nmethod. intros Hn.
    destruct (as_nmethod_or_null sender_blob); [discriminate |].
    destruct (is_upcall_stub sender_blob); [reflexivity |].
    now destruct (frame_size sender_blob <=? 0). }
  split.
  { intros Hsize. apply Z.leb_le in Hsize. rewrite Hsize.
    split_tests; discriminate. }
  intros nm Hnm Hu Hd. unfold is_nmethod. rewrite Hnm, Hu.
  fold (at_deopt nm). rewrite Hd.
  split; intros Hsize.
  - apply Z.leb_le in Hsize. now rewrite Hsize.
  - apply Z.leb_gt in Hsize. now rewrite Hsize.
Qed.

End CandidateSender.

(** ** [is_interpreted_frame_valid] *)

Section InterpretedFrame.

Context {Thread : Type} {bounds : StackBoundsOracle Thread}.
Variable lay : FrameLayout.
Variable rt : Runtime Thread.

(** A frame whose fp is not above its sp is turned down before any slot of
    it is read. *)
Lemma is_interpreted_frame_valid_fp_le_sp thread m f :
  is_interpreted_frame rt f = true ->
  _fp f <= _sp f ->
  is_interpreted_frame_valid lay rt thread m f = Returns false.
Proof.
  intros Hinterp Hle. apply Z.leb_le in Hle.
  unfold is_interpreted_frame_valid. rewrite Hinterp, Hle. cbn [negb].
  split_tests; reflexivity.
Qed.

(** C2 (as amended): [is_interpreted_frame_valid] returns true only if all
    of the following hold: fp and sp are non-null and word-aligned; fp is
    strictly above sp; the distance from the frame's unextended sp up to
    fp, in words, does not exceed a fixed slack (1024) plus the method's
    declared maximum operand-stack depth times the stack element size; the
    method reference stored at the fixed fp-relative slot passes the
    method-validity predicate; the stored bytecode position decodes to a
    valid index within that method; the stored constant-pool-cache
    reference passes the metadata-validity predicate; and the computed
    locals-array base lies within the thread's stack bounds up to fp.  In
    particular every frame with fp <= sp is rejected. *)
Theorem is_interpreted_frame_valid_only_if thread m f :
  let meth := safe_interpreter_frame_method lay m f in
  (is_interpreted_frame_valid lay rt thread m f = Returns true ->
   _fp f <> nullptr /\ Z.land (_fp f) (wordSize - 1) = 0 /\
   _sp f <> nullptr /\ Z.land (_sp f) (wordSize - 1) = 0 /\
   _sp f < _fp f /\
   word_diff (_fp f) (_unextended_sp f)
     <= 1024 + Method_max_stack rt meth * Interpreter_stackElementSize rt /\
   Method_is_valid_method rt meth = true /\
   0 <= Method_validate_bci_from_bcp rt meth (interpreter_frame_bcp lay m f) /\
   MetaspaceObj_is_valid rt (load m (interpreter_frame_cache_addr lay f)) = true /\
   is_in_stack_range_incl thread (interpreter_frame_locals lay m f) (_fp f) = true)
  /\
  (_fp f <= _sp f ->
   is_interpreted_frame_valid lay rt thread m f <> Returns true /\
   (is_interpreted_frame rt f = true ->
    is_interpreted_frame_valid lay rt thread m f = Returns false)).
Proof.
  intros meth. split.
  - unfold is_interpreted_frame_valid. fold meth.
    destruct (is_interpreted_frame rt f); cbn [negb]; [| discriminate].
    destruct (_fp f =? nullptr) eqn:Hfp0; cbn [orb]; [discriminate |].
    destruct (Z.land (_fp f) (wordSize - 1) =? 0) eqn:Hfpa; cbn [negb];
      [| discriminate].
    destruct (_sp f =? nullptr) eqn:Hsp0; cbn [orb]; [discriminate |].
    destruct (Z.land (_sp f) (wordSize - 1) =? 0) eqn:Hspa; cbn [negb];
      [| discriminate].
    destruct (word_add (_fp f) (interpreter_frame_initial_sp_offset lay)
                <? _sp f); [discriminate |].
    destruct (_fp f <=? _sp f) eqn:Hle; [discriminate |].
    destruct (Method_is_valid_method rt meth) eqn:Hmeth; cbn [negb];
      [| discriminate].
    destruct (word_diff (_fp f) (_unextended_sp f)
                >? 1024 + Method_max_stack rt meth
                          * Interpreter_stackElementSize rt) eqn:Hgap;
      [discriminate |].
    destruct (Method_validate_bci_from_bcp rt meth
                (interpreter_frame_bcp lay m f) <? 0) eqn:Hbci;
      [discriminate |].
    destruct (MetaspaceObj_is_valid rt
                (load m (interpreter_frame_cache_addr lay f))) eqn:Hcp;
      cbn [negb]; [| discriminate].
    intros Hlocals. injection Hlocals as Hlocals.
    apply Z.eqb_neq in Hfp0, Hsp0. apply Z.eqb_eq in Hfpa, Hspa.
    apply Z.leb_gt in Hle. apply Z.ltb_ge in Hbci.
    rewrite Z.gtb_ltb in Hgap. apply Z.ltb_ge in Hgap.
    repeat split; assumption.
  - intros Hle. split.
    + unfold is_interpreted_frame_valid.
      apply Z.leb_le in Hle. rewrite Hle.
      split_tests; discriminate.
    + intros Hinterp. now apply is_interpreted_frame_valid_fp_le_sp.
Qed.

End InterpretedFrame.

(** ** [patch_pc] *)

Section PatchPc.

Context {Thread : Type}.
Variable rt : Runtime Thread.

(** The consistency assertion is reached and fails only on a stored value
    that is neither null, nor the recorded pc, nor the new pc. *)
Lemma patch_pc_consistency_only_if m f pc :
  patch_pc rt m f pc = Fatal assert_pc_consistency ->
  stored_pc rt m f <> nullptr /\ stored_pc rt m f <> _pc f
  /\ stored_pc rt m f <> pc.
Proof.
  unfold patch_pc. fold (stored_pc rt m f).
  destruct (same_blob (_cb f) (CodeCache_find_blob rt pc)); cbn [negb];
    [| discriminate].
  destruct (Continuation_is_return_barrier_entry rt (stored_pc rt m f));
    [discriminate |].
  destruct (_pc f =? stored_pc rt m f) eqn:H1;
    destruct (pc =? stored_pc rt m f) eqn:H2;
    destruct (stored_pc rt m f =? nullptr) eqn:H3; cbn [orb negb];
    intros H; try (revert H; split_tests; discriminate).
  apply Z.eqb_neq in H1, H2, H3. repeat split; congruence.
Qed.

(** C10: the consistency assertion of [patch_pc] also passes when the
    previously stored return address, stripped of its signature, is null;
    it fires only when the old stored value is non-null and differs from
    both the frame's recorded pc and the pc being patched in (and, the two
    assertions before it having passed, it does fire then). *)
Theorem patch_pc_consistency_assertion m f pc :
  (stored_pc rt m f = nullptr ->
   patch_pc rt m f pc <> Fatal assert_pc_consistency) /\
  (patch_pc rt m f pc = Fatal assert_pc_consistency ->
   stored_pc rt m f <> nullptr /\ stored_pc rt m f <> _pc f
   /\ stored_pc rt m f <> pc) /\
  (same_blob (_cb f) (CodeCache_find_blob rt pc) = true ->
   Continuation_is_return_barrier_entry rt (stored_pc rt m f) = false ->
   stored_pc rt m f <> nullptr -> stored_pc rt m f <> _pc f ->
   stored_pc rt m f <> pc ->
   patch_pc rt m f pc = Fatal assert_pc_consistency).
Proof.
  split; [| split].
  - intros Hnull Hfatal.
    now destruct (patch_pc_consistency_only_if _ _ _ Hfatal) as (Hne & _).
  - apply patch_pc_consistency_only_if.
  - intros Hblob Hbarrier H3 H1 H2.
    unfold patch_pc. fold (stored_pc rt m f).
    rewrite Hblob, Hbarrier. cbn [negb].
    apply Z.eqb_neq in H3.
    assert (H1' : (_pc f =? stored_pc rt m f) = false)
      by (apply Z.eqb_neq; congruence).
    assert (H2' : (pc =? stored_pc rt m f) = false)
      by (apply Z.eqb_neq; congruence).
    now rewrite H1', H2', H3.
Qed.

(** What a completed call leaves behind. *)
Lemma patch_pc_returns m f pc f' m' :
  patch_pc rt m f pc = Returns (f', m') ->
  m' = store m (word_add (_sp f) (-1)) (pauth_sign_return_address rt pc) /\
  f' = (if get_deopt_original_pc rt m' (set_pc f pc) =? nullptr
        then set_deopt_state (set_pc f pc) not_deoptimized
        else set_pc (set_deopt_state (set_pc f pc) is_deoptimized)
                    (get_deopt_original_pc rt m' (set_pc f pc))).
Proof.
  unfold patch_pc. fold (stored_pc rt m f).
  set (mem' := store m (word_add (_sp f) (-1)) (pauth_sign_return_address rt pc)).
  destruct (same_blob (_cb f) (CodeCache_find_blob rt pc)); cbn [negb];
    [| discriminate].
  destruct (Continuation_is_return_barrier_entry rt (stored_pc rt m f));
    [discriminate |].
  destruct (negb ((_pc f =? stored_pc rt m f) || (pc =? stored_pc rt m f)
                  || (stored_pc rt m f =? nullptr))); [discriminate |].
  destruct (get_deopt_original_pc rt mem' (set_pc f pc) =? nullptr) eqn:Horig;
    cbn [negb].
  - intros H. injection H as Hf Hm. subst m'. now rewrite Horig.
  - destruct (negb (get_deopt_original_pc rt mem' (set_pc f pc) =? _pc f));
      [discriminate |].
    intros H. injection H as Hf Hm. subst m'. now rewrite Horig.
Qed.

(** C3: [patch_pc] writes the new pc, signed under the platform's
    authentication scheme, into the return-address slot one word below sp,
    so that afterwards the stripped value of that slot is the new pc (the
    scheme giving the new pc back when its signed form is stripped); the
    compiled method's original pc is queried on the frame whose pc field
    already holds the unsigned new pc (and on the patched stack); if that
    original pc is non-null the deopt state becomes [is_deoptimized] and
    the pc field the original pc, otherwise the state becomes
    [not_deoptimized] and the pc field stays the new pc; and a second call
    with the same pc on the frame and stack so obtained does not stop at
    the consistency assertion. *)
Theorem patch_pc_spec m f pc f' m' :
  pauth_strip_verifiable rt (pauth_sign_return_address rt pc) = pc ->
  patch_pc rt m f pc = Returns (f', m') ->
  let slot := word_add (_sp f) (-1) in
  let original_pc := get_deopt_original_pc rt m' (set_pc f pc) in
  load m' slot = pauth_sign_return_address rt pc /\
  pauth_strip_verifiable rt (load m' slot) = pc /\
  (original_pc <> nullptr ->
   _deopt_state f' = is_deoptimized /\ _pc f' = original_pc) /\
  (original_pc = nullptr ->
   _deopt_state f' = not_deoptimized /\ _pc f' = pc) /\
  (_sp f' = _sp f /\ _unextended_sp f' = _unextended_sp f /\
   _fp f' = _fp f /\ _cb f' = _cb f) /\
  patch_pc rt m' f' pc <> Fatal assert_pc_consistency.
Proof.
  intros Hstrip Hret slot original_pc.
  destruct (patch_pc_returns _ _ _ _ _ Hret) as (Hm & Hf).
  fold original_pc in Hf. fold slot in Hm.
  assert (Hload : load m' slot = pauth_sign_return_address rt pc)
    by (rewrite Hm; apply load_store_same).
  assert (Hframe : _sp f' = _sp f /\ _unextended_sp f' = _unextended_sp f /\
                   _fp f' = _fp f /\ _cb f' = _cb f).
  { rewrite Hf. destruct (original_pc =? nullptr); cbn; auto. }
  split; [exact Hload |].
  split; [rewrite Hload; exact Hstrip |].
  split.
  { intros Hnz. apply Z.eqb_neq in Hnz. rewrite Hnz in Hf.
    rewrite Hf. cbn. auto. }
  split.
  { intros Hz. apply Z.eqb_eq in Hz. rewrite Hz in Hf.
    rewrite Hf. cbn. auto. }
  split; [exact Hframe |].
  intros Hfatal.
  apply patch_pc_consistency_only_if in Hfatal.
  destruct Hfatal as (_ & _ & Hne). apply Hne.
  unfold stored_pc. destruct Hframe as (Hsp & _). rewrite Hsp. fold slot.
  rewrite Hload. exact Hstrip.
Qed.

End PatchPc.

(** ** [make_walkable] *)

Lemma make_walkable_unset m a :
  last_Java_sp a = nullptr ->
  make_walkable m a = Returns {| anchor_after := a; stack_reads := [] |}.
Proof. intros Hsp. unfold make_walkable. now rewrite Hsp. Qed.

Lemma make_walkable_walkable m a :
  walkable a = true ->
  make_walkable m a = Returns {| anchor_after := a; stack_reads := [] |}.
Proof.
  intros Hw. unfold make_walkable. rewrite Hw.
  now destruct (last_Java_sp a =? nullptr).
Qed.

(** A completed call leaves the anchor either untouched or walkable. *)
Lemma make_walkable_returns m a o :
  make_walkable m a = Returns o ->
  (anchor_after o = a /\ stack_reads o = []
   /\ (last_Java_sp a = nullptr \/ walkable a = true))
  \/ (anchor_after o
        = set_last_Java_pc a (load m (word_add (_last_Java_sp a) (-1)))
      /\ stack_reads o = [word_add (_last_Java_sp a) (-1)]
      /\ walkable (anchor_after o) = true).
Proof.
  unfold make_walkable.
  destruct (last_Java_sp a =? nullptr) eqn:Hsp.
  { intros H. injection H as <-. apply Z.eqb_eq in Hsp. left. cbn. auto. }
  destruct (walkable a) eqn:Hw.
  { intros H. injection H as <-. left. cbn. auto. }
  destruct (negb (last_Java_pc a =? nullptr)); [discriminate |].
  destruct (walkable (set_last_Java_pc a _)) eqn:Hw'; cbn [negb];
    [| discriminate].
  intros H. injection H as <-. right. cbn. auto.
Qed.

(** C8: [make_walkable] is idempotent.  It changes nothing and reads nothing
    when no call-out is recorded ([last_Java_sp] is null) and when the
    anchor is already walkable; otherwise it reads exactly the word stored
    immediately below the recorded stack pointer ([last_Java_sp[-1]]) and
    puts it into the anchor's pc field (the closing assertion requires that
    word to be non-null).  So of two consecutive calls the second returns the
    anchor of the first, pc included, and the stack word is read once at
    most, by the first. *)
Theorem make_walkable_idempotent m a :
  (last_Java_sp a = nullptr ->
   make_walkable m a = Returns {| anchor_after := a; stack_reads := [] |}) /\
  (walkable a = true ->
   make_walkable m a = Returns {| anchor_after := a; stack_reads := [] |}) /\
  (last_Java_sp a <> nullptr -> walkable a = false ->
   let slot := word_add (last_Java_sp a) (-1) in
   (load m slot <> nullptr ->
    make_walkable m a =
      Returns {| anchor_after := set_last_Java_pc a (load m slot);
                 stack_reads := [slot] |}) /\
   (load m slot = nullptr ->
    make_walkable m a = Fatal assert_something_went_wrong)) /\
  (forall o1, make_walkable m a = Returns o1 ->
     forall m2,
       make_walkable m2 (anchor_after o1)
         = Returns {| anchor_after := anchor_after o1; stack_reads := [] |}
       /\ (length (stack_reads o1) <= 1)%nat).
Proof.
  split; [apply make_walkable_unset |].
  split; [apply make_walkable_walkable |].
  split.
  - intros Hsp Hw slot.
    assert (Hpc : last_Java_pc a = nullptr).
    { unfold walkable in Hw. fold (last_Java_sp a) in Hw.
      fold (last_Java_pc a) in Hw.
      apply Z.eqb_neq in Hsp. rewrite Hsp in Hw. cbn [negb andb] in Hw.
      apply negb_false_iff in Hw. now apply Z.eqb_eq. }
    unfold make_walkable. rewrite Hw, Hpc.
    apply Z.eqb_neq in Hsp. rewrite Hsp. rewrite Z.eqb_refl. cbn [negb].
    fold (last_Java_sp a). fold slot.
    unfold walkable, set_last_Java_pc.
    cbn [_last_Java_sp _last_Java_pc].
    fold (last_Java_sp a). rewrite Hsp. cbn [negb andb].
    split; intros Hword.
    + apply Z.eqb_neq in Hword. now rewrite Hword.
    + apply Z.eqb_eq in Hword. now rewrite Hword.
  - intros o1 Hret m2.
    destruct (make_walkable_returns _ _ _ Hret)
      as [(Ha & Hreads & Hstate) | (Ha & Hreads & Hw)].
    + rewrite Ha, Hreads. split; [| cbn; lia].
      destruct Hstate as [Hsp | Hw];
        [now apply make_walkable_unset | now apply make_walkable_walkable].
    + rewrite Hreads. split; [| cbn; lia].
      now apply make_walkable_walkable.
Qed.

(** * The functions at work on the synthetic runtime *)

Section Examples.

Import Synthetic.

(** C1, on a frame whose sp sits in the guard zone. *)
Lemma safe_for_sender_sp_outside_usable_stack_witness :
  is_heap_frame guard_zone_frame = false /\
  is_in_usable_stack thread0 (_sp guard_zone_frame) = false /\
  safe blank_memory guard_zone_frame = Returns false.
Proof.
  split; [reflexivity |]. split; [reflexivity |].
  apply safe_for_sender_sp_outside_usable_stack; reflexivity.
Defined.

(** C1 as worded fails: a heap frame is accepted although its sp is far
    outside the usable stack. *)
Lemma heap_frame_outside_usable_stack_is_safe :
  ~ rejects_every_frame_outside_usable_stack.
Proof.
  intros Hall.
  specialize (Hall JavaThread _ aarch64_layout rt0 thread0 blank_memory
                   heap_frame eq_refl).
  vm_compute in Hall. discriminate Hall.
Defined.

(** C9, on a heap frame outside the thread's stack. *)
Lemma safe_for_sender_heap_frame_witness :
  is_heap_frame heap_frame = true /\
  is_in_usable_stack thread0 (_sp heap_frame) = false /\
  safe blank_memory heap_frame = Returns true.
Proof.
  split; [reflexivity |]. split; [reflexivity |].
  apply safe_for_sender_heap_frame; reflexivity.
Defined.

(** C7, on a native frame with a return address in place, and on the same
    frame over blank memory. *)
Lemma safe_for_sender_native_frame_witness :
  safe native_memory native_frame = Returns true /\
  safe blank_memory native_frame = Returns false.
Proof.
  split.
  - exact (proj1 (safe_for_sender_native_frame aarch64_layout rt0 thread0
                    native_memory native_frame
                    eq_refl eq_refl eq_refl eq_refl)).
  - exact (proj1 (safe_for_sender_native_frame aarch64_layout rt0 thread0
                    blank_memory native_frame
                    eq_refl eq_refl eq_refl eq_refl)).
Defined.

(** C4, on a frame whose code unit has no frame size, and on the compiled
    frame, whose candidate sender sp is four words up. *)
Lemma safe_for_sender_compiled_frame_size_witness :
  frame_size stub_blob <= 0 /\
  safe blank_memory stub_frame = Returns false /\
  sender_sp barrier_candidate = word_add (_unextended_sp compiled_frame) 4.
Proof.
  split; [vm_compute; discriminate |].
  split.
  - apply (proj1 (safe_for_sender_compiled_frame_size aarch64_layout rt0
                    thread0 blank_memory stub_frame stub_blob
                    eq_refl eq_refl eq_refl eq_refl eq_refl)).
    vm_compute; discriminate.
  - assert (Hc : candidate_sender aarch64_layout rt0 thread0 barrier_memory
                   compiled_frame compiled_blob = Some barrier_candidate)
      by (vm_compute; reflexivity).
    apply (proj2 (proj2 (safe_for_sender_compiled_frame_size aarch64_layout
                    rt0 thread0 barrier_memory compiled_frame compiled_blob
                    eq_refl eq_refl eq_refl eq_refl eq_refl))
             barrier_candidate Hc).
Defined.

Lemma compiled_frame_reaches_barrier_candidate :
  reaches_candidate aarch64_layout rt0 thread0 barrier_memory
                    compiled_frame compiled_blob barrier_candidate.
Proof. repeat split. Qed.

(** C5, on the compiled frame returning into the return barrier: it
    belongs to a continuation, and the bottom sender is what gets checked. *)
Lemma safe_for_sender_return_barrier_witness :
  Continuation_is_return_barrier_entry rt0 (sender_pc barrier_candidate) = true /\
  safe barrier_memory compiled_frame
    = check_sender aarch64_layout rt0 thread0 barrier_memory
                   bottom_sender_candidate /\
  safe barrier_memory compiled_frame = Returns true.
Proof.
  split; [reflexivity |].
  assert (H : safe barrier_memory compiled_frame
              = check_sender aarch64_layout rt0 thread0 barrier_memory
                             bottom_sender_candidate).
  { exact (proj2 (safe_for_sender_return_barrier aarch64_layout rt0 thread0
                    barrier_memory compiled_frame compiled_blob
                    barrier_candidate
                    compiled_frame_reaches_barrier_candidate eq_refl)
                 eq_refl). }
  split; [exact H |]. rewrite H. reflexivity.
Defined.

Lemma compiled_frame_reaches_flat_entry :
  reaches_sender_check aarch64_layout rt0 thread0 flat_entry_memory
                       compiled_frame compiled_blob flat_entry_candidate.
Proof. exists flat_entry_candidate. repeat split. Qed.

Lemma compiled_frame_reaches_entry :
  reaches_sender_check aarch64_layout rt0 thread0 entry_memory
                       compiled_frame compiled_blob entry_candidate.
Proof. exists entry_candidate. repeat split. Qed.

(** C6 as worded fails: the sender returns to the call stub and its
    call-wrapper record lies in the stack strictly above its fp, yet the
    frame is turned down, because that fp is not above the sender sp. *)
Lemma flat_entry_frame_is_rejected :
  ~ call_stub_sender_safe_iff_wrapper_in_frame.
Proof.
  intros Hall.
  specialize (Hall JavaThread _ aarch64_layout rt0 thread0 flat_entry_memory
                   compiled_frame compiled_blob flat_entry_candidate
                   stub_blob compiled_frame_reaches_flat_entry
                   eq_refl eq_refl eq_refl eq_refl eq_refl eq_refl).
  apply proj2 in Hall. specialize (Hall eq_refl).
  vm_compute in Hall. discriminate Hall.
Defined.

(** C6, on the compiled frame returning into the call stub: accepted under
    a proper entry frame, turned down under the flat one. *)
Lemma safe_for_sender_code_cache_sender_witness :
  safe entry_memory compiled_frame = Returns true /\
  safe flat_entry_memory compiled_frame = Returns false.
Proof.
  split.
  - pose proof (safe_for_sender_code_cache_sender aarch64_layout rt0 thread0
                  entry_memory compiled_frame compiled_blob entry_candidate
                  compiled_frame_reaches_entry eq_refl) as H.
    cbv zeta in H. destruct H as (_ & H).
    destruct (H stub_blob eq_refl ltac:(discriminate)) as (_ & _ & Hc).
    destruct (Hc eq_refl eq_refl) as (Hstub & _).
    exact (Hstub eq_refl).
  - pose proof (safe_for_sender_code_cache_sender aarch64_layout rt0 thread0
                  flat_entry_memory compiled_frame compiled_blob
                  flat_entry_candidate
                  compiled_frame_reaches_flat_entry eq_refl) as H.
    cbv zeta in H. destruct H as (_ & H).
    destruct (H stub_blob eq_refl ltac:(discriminate)) as (_ & _ & Hc).
    destruct (Hc eq_refl eq_refl) as (Hstub & _).
    exact (Hstub eq_refl).
Defined.

(** C2, on an interpreted frame that passes every test, and on the same
    frame with sp raised above fp. *)
Lemma is_interpreted_frame_valid_only_if_witness :
  valid interpreter_memory deep_interpreted_frame = Returns true /\
  word_diff (_fp deep_interpreted_frame) (_unextended_sp deep_interpreted_frame)
    <= 1024 + 4 * 8 /\
  valid interpreter_memory inverted_interpreted_frame = Returns false.
Proof.
  assert (Hvalid : valid interpreter_memory deep_interpreted_frame = Returns true)
    by (vm_compute; reflexivity).
  split; [exact Hvalid |]. split.
  - pose proof (proj1 (is_interpreted_frame_valid_only_if aarch64_layout rt0
                         thread0 interpreter_memory deep_interpreted_frame)
                      Hvalid) as H.
    destruct H as (_ & _ & _ & _ & _ & Hgap & _). exact Hgap.
  - apply (proj2 (is_interpreted_frame_valid_only_if aarch64_layout rt0
                    thread0 interpreter_memory inverted_interpreted_frame)).
    + vm_compute; discriminate.
    + reflexivity.
Defined.

(** C2 as worded fails: the frame is accepted with 125 words between its
    unextended sp and fp, while its sp lies 2000 words (16000 bytes)
    below fp, more than the 1056 allowed. *)
Lemma deep_interpreted_frame_is_valid :
  ~ valid_only_if_gap_to_sp_bounded.
Proof.
  intros Hall.
  assert (Hvalid : valid interpreter_memory deep_interpreted_frame = Returns true)
    by (vm_compute; reflexivity).
  specialize (Hall JavaThread _ aarch64_layout rt0 thread0 interpreter_memory
                   deep_interpreted_frame Hvalid).
  destruct Hall as (_ & _ & _ & _ & _ & Hgap & _).
  vm_compute in Hgap. apply Hgap. reflexivity.
Defined.

(** C3, under a scheme that signs by setting bit 60 and strips by clearing
    it: the compiled frame, whose slot holds its signed pc, is patched to
    return to the deoptimisation handler, and patched once more. *)
Lemma patch_pc_spec_witness :
  pauth_strip_verifiable SyntheticPac.rt_pac
    (pauth_sign_return_address SyntheticPac.rt_pac deopt_handler)
    = deopt_handler /\
  patch_pc SyntheticPac.rt_pac SyntheticPac.signed_memory compiled_frame
           deopt_handler
    = Returns (patched_frame, SyntheticPac.signed_patched_memory) /\
  load SyntheticPac.signed_patched_memory 499992 = 2 ^ 60 + deopt_handler /\
  pauth_strip_verifiable SyntheticPac.rt_pac
    (load SyntheticPac.signed_patched_memory 499992) = deopt_handler /\
  _deopt_state patched_frame = is_deoptimized /\
  _pc patched_frame = 36900 /\
  patch_pc SyntheticPac.rt_pac SyntheticPac.signed_patched_memory
           patched_frame deopt_handler
    <> Fatal assert_pc_consistency.
Proof.
  assert (Hstrip : pauth_strip_verifiable SyntheticPac.rt_pac
                     (pauth_sign_return_address SyntheticPac.rt_pac
                        deopt_handler) = deopt_handler)
    by reflexivity.
  assert (Hret : patch_pc SyntheticPac.rt_pac SyntheticPac.signed_memory
                          compiled_frame deopt_handler
                 = Returns (patched_frame, SyntheticPac.signed_patched_memory))
    by reflexivity.
  pose proof (patch_pc_spec SyntheticPac.rt_pac SyntheticPac.signed_memory
                compiled_frame deopt_handler patched_frame
                SyntheticPac.signed_patched_memory Hstrip Hret) as H.
  cbv zeta in H.
  destruct H as (Hload & Hstripped & Hdeopt & _ & _ & Hagain).
  split; [exact Hstrip |]. split; [exact Hret |].
  split; [exact Hload |]. split; [exact Hstripped |].
  destruct Hdeopt as (Hstate & Hpc); [vm_compute; discriminate |].
  split; [exact Hstate |]. split; [exact Hpc |]. exact Hagain.
Defined.

(** C10, on the compiled frame over blank memory: the slot reads null and
    the patch goes through. *)
Lemma patch_pc_consistency_assertion_witness :
  stored_pc rt0 blank_memory compiled_frame = nullptr /\
  patch_pc rt0 blank_memory compiled_frame 36950
    <> Fatal assert_pc_consistency.
Proof.
  split; [reflexivity |].
  apply (proj1 (patch_pc_consistency_assertion rt0 blank_memory
                  compiled_frame 36950)).
  reflexivity.
Defined.

(** C8, on a fresh anchor: the first call captures the word below the
    recorded sp, the second changes and reads nothing, whatever the stack
    holds by then. *)
Lemma make_walkable_idempotent_witness :
  make_walkable anchor_memory fresh_anchor
    = Returns {| anchor_after := walkable_anchor; stack_reads := [499992] |} /\
  make_walkable blank_memory walkable_anchor
    = Returns {| anchor_after := walkable_anchor; stack_reads := [] |}.
Proof.
  pose proof (make_walkable_idempotent anchor_memory fresh_anchor)
    as (_ & _ & Hcapture & Hagain).
  assert (Hfirst : make_walkable anchor_memory fresh_anchor
            = Returns {| anchor_after := walkable_anchor;
                         stack_reads := [499992] |}).
  { apply Hcapture; [vm_compute; discriminate | reflexivity
                    | vm_compute; discriminate]. }
  split; [exact Hfirst |].
  exact (proj1 (Hagain _ Hfirst blank_memory)).
Defined.

End Examples.

(** * Further properties *)

(** ** Word arithmetic *)

Lemma wrap64_range (z : Z) : 0 <= wrap64 z < 2 ^ 64.
Proof. unfold wrap64. apply Z.mod_pos_bound. lia. Qed.

Lemma wrap64_small (z : Z) : 0 <= z < 2 ^ 64 -> wrap64 z = z.
Proof. intros H. unfold wrap64. now apply Z.mod_small. Qed.

Lemma wrap64_idem (z : Z) : wrap64 (wrap64 z) = wrap64 z.
Proof. apply wrap64_small, wrap64_range. Qed.

Lemma wrap64_add_mul (z k : Z) : wrap64 (z + k * 2 ^ 64) = wrap64 z.
Proof. unfold wrap64. apply Z.mod_add. lia. Qed.

Lemma wrap64_decompose (z : Z) : exists k, wrap64 z = z + k * 2 ^ 64.
Proof.
  exists (- (z / 2 ^ 64)). unfold wrap64.
  pose proof (Z.div_mod z (2 ^ 64) ltac:(lia)). lia.
Qed.

Lemma signed64_decompose (z : Z) : exists k, signed64 z = z + k * 2 ^ 64.
Proof.
  destruct (wrap64_decompose z) as [k Hk]. unfold signed64. cbv zeta.
  destruct (wrap64 z <? 2 ^ 63).
  - exists k. exact Hk.
  - exists (k - 1). lia.
Qed.

Lemma signed64_range (z : Z) : - 2 ^ 63 <= signed64 z < 2 ^ 63.
Proof.
  pose proof (wrap64_range z) as Hr. unfold signed64. cbv zeta.
  destruct (Z.ltb_spec (wrap64 z) (2 ^ 63)); lia.
Qed.

Lemma signed64_small (z : Z) : - 2 ^ 63 <= z < 2 ^ 63 -> signed64 z = z.
Proof.
  intros Hz. destruct (signed64_decompose z) as [k Hk].
  pose proof (signed64_range z). nia.
Qed.

Lemma word_diff_range (p q : address) : - 2 ^ 60 <= word_diff p q < 2 ^ 60.
Proof.
  unfold word_diff. rewrite Z.shiftr_div_pow2 by lia.
  pose proof (signed64_range (p - q)) as Hr.
  change (2 ^ 63) with (2 ^ 60 * 2 ^ 3) in Hr.
  split.
  - apply Z.div_le_lower_bound; lia.
  - apply Z.div_lt_upper_bound; lia.
Qed.

(** A distance that is a whole number of words is recovered exactly. *)
Lemma word_diff_exact (p q : address) :
  (p - q) mod 8 = 0 -> exists k, wordSize * word_diff p q = p - q + k * 2 ^ 64.
Proof.
  intros Hal. destruct (signed64_decompose (p - q)) as [k Hk]. exists k.
  unfold word_diff, wordSize. rewrite Z.shiftr_div_pow2 by lia.
  change (2 ^ 3) with 8.
  assert (Hmod : signed64 (p - q) mod 8 = 0).
  { rewrite Hk. change (2 ^ 64) with (2305843009213693952 * 8).
    rewrite Z.mul_assoc, Z.mod_add by lia. exact Hal. }
  pose proof (Z.div_mod (signed64 (p - q)) 8 ltac:(lia)). lia.
Qed.

Lemma word_add_word_diff (p q : address) :
  0 <= p < 2 ^ 64 -> (p - q) mod 8 = 0 ->
  word_add q (wrap64 (word_diff p q)) = p.
Proof.
  intros Hp Hal. destruct (word_diff_exact p q Hal) as [k Hk].
  destruct (wrap64_decompose (word_diff p q)) as [j Hj].
  unfold word_add. rewrite Hj.
  replace (q + wordSize * (word_diff p q + j * 2 ^ 64))
    with (p + (k + wordSize * j) * 2 ^ 64) by lia.
  rewrite wrap64_add_mul. now apply wrap64_small.
Qed.

(** Two slots of one frame are the same only if their indices are. *)
Lemma word_add_inj (p i j : Z) :
  - 2 ^ 60 <= i < 2 ^ 60 -> - 2 ^ 60 <= j < 2 ^ 60 ->
  word_add p i = word_add p j -> i = j.
Proof.
  intros Hi Hj Heq. unfold word_add, wordSize in Heq.
  destruct (wrap64_decompose (p + 8 * i)) as [a Ha].
  destruct (wrap64_decompose (p + 8 * j)) as [b Hb].
  rewrite Ha, Hb in Heq.
  assert (Hab : 8 * (i - j) = (b - a) * 2 ^ 64) by lia.
  assert (b - a = 0) by nia. lia.
Qed.

(** ** More on [safe_for_sender] *)

Section SafeForSenderMore.

Context {Thread : Type} {bounds : StackBoundsOracle Thread}.
Variable lay : FrameLayout.
Variable rt : Runtime Thread.

(** The frame built for an interpreter pc is an interpreted frame. *)
Lemma frame_of_is_interpreted sp usp fp pc :
  Interpreter_contains rt pc = true ->
  is_interpreted_frame rt (frame_of rt sp usp fp pc) = true.
Proof. intros H. exact H. Qed.

(** [is_interpreted_frame_valid] stops only on a frame that is not
    interpreted. *)
Lemma is_interpreted_frame_valid_returns thread m f :
  is_interpreted_frame rt f = true ->
  exists b, is_interpreted_frame_valid lay rt thread m f = Returns b.
Proof.
  intros Hinterp. unfold is_interpreted_frame_valid. rewrite Hinterp.
  cbn [negb]. split_tests; eexists; reflexivity.
Qed.

(** What an accepted interpreted frame is known to satisfy about its sp and
    fp. *)
Lemma is_interpreted_frame_valid_true_inv thread m f :
  is_interpreted_frame_valid lay rt thread m f = Returns true ->
  _fp f <> nullptr /\ Z.land (_fp f) (wordSize - 1) = 0 /\
  _sp f <> nullptr /\ Z.land (_sp f) (wordSize - 1) = 0 /\
  _sp f < _fp f /\
  (word_add (_fp f) (interpreter_frame_initial_sp_offset lay) <? _sp f) = false.
Proof.
  unfold is_interpreted_frame_valid.
  destruct (is_interpreted_frame rt f); cbn [negb]; [| discriminate].
  destruct (_fp f =? nullptr) eqn:Hfp0; cbn [orb]; [discriminate |].
  destruct (Z.land (_fp f) (wordSize - 1) =? 0) eqn:Hfpa; cbn [negb];
    [| discriminate].
  destruct (_sp f =? nullptr) eqn:Hsp0; cbn [orb]; [discriminate |].
  destruct (Z.land (_sp f) (wordSize - 1) =? 0) eqn:Hspa; cbn [negb];
    [| discriminate].
  destruct (word_add (_fp f) (interpreter_frame_initial_sp_offset lay)
              <? _sp f) eqn:Hinit; [discriminate |].
  destruct (_fp f <=? _sp f) eqn:Hle; [discriminate |].
  intros _.
  apply Z.eqb_neq in Hfp0, Hsp0. apply Z.eqb_eq in Hfpa, Hspa.
  apply Z.leb_gt in Hle. auto 10.
Qed.

(** The checks on a code-cache sender stop only at the frame-size assertion,
    and only for a compiled method without a frame size. *)
Lemma check_code_cache_sender_fatal thread m c e :
  check_code_cache_sender lay rt thread m c = Fatal e ->
  e = assert_should_count_return_address /\
  exists sender_blob,
    CodeCache_find_blob rt (sender_pc c) = Some sender_blob /\
    is_nmethod sender_blob = true /\ frame_size sender_blob <= 0.
Proof.
  unfold check_code_cache_sender.
  destruct (CodeCache_find_blob rt (sender_pc c)) as [sender_blob |];
    [| discriminate].
  destruct (sender_pc c =? nullptr); [discriminate |].
  destruct (negb (code_contains sender_blob (sender_pc c))); [discriminate |].
  destruct (is_adapter_blob sender_blob); [discriminate |].
  destruct (StubRoutines_returns_to_call_stub rt (sender_pc c)).
  { destruct (negb _); discriminate. }
  destruct (is_upcall_stub sender_blob); [discriminate |].
  match goal with |- context [if ?b then Returns false else _] =>
    destruct b; [discriminate |] end.
  destruct (frame_size sender_blob <=? 0) eqn:Hsize.
  - destruct (is_nmethod sender_blob) eqn:Hnm; [| discriminate].
    intros H. injection H as <-. apply Z.leb_le in Hsize.
    split; [reflexivity |]. now exists sender_blob.
  - destruct (negb (is_nmethod sender_blob)); discriminate.
Qed.

Lemma check_sender_fatal thread m c e :
  check_sender lay rt thread m c = Fatal e ->
  e = assert_should_count_return_address /\
  exists sender_blob,
    CodeCache_find_blob rt (sender_pc c) = Some sender_blob /\
    is_nmethod sender_blob = true /\ frame_size sender_blob <= 0.
Proof.
  unfold check_sender.
  destruct (Interpreter_contains rt (sender_pc c)) eqn:Hinterp.
  - destruct (negb _); [discriminate |].
    destruct (is_interpreted_frame_valid_returns thread m
                (frame_of rt (sender_sp c) (sender_unextended_sp c)
                          (saved_fp c) (sender_pc c))
                (frame_of_is_interpreted _ _ _ _ Hinterp)) as [b Hb].
    rewrite Hb. discriminate.
  - apply check_code_cache_sender_fatal.
Qed.

Lemma safe_for_sender_fatal thread m f e :
  safe_for_sender lay rt thread m f = Fatal e ->
  e = assert_should_count_return_address /\
  exists c' sender_blob,
    CodeCache_find_blob rt (sender_pc c') = Some sender_blob /\
    is_nmethod sender_blob = true /\ frame_size sender_blob <= 0.
Proof.
  unfold safe_for_sender.
  destruct (is_heap_frame f); [discriminate |].
  destruct (negb (is_in_usable_stack thread (_sp f))); [discriminate |].
  destruct (negb (is_in_full_stack_checked thread (_unextended_sp f)));
    [discriminate |].
  destruct (_cb f) as [cb |].
  - destruct (negb (is_frame_complete_at cb (_pc f)) && _); [discriminate |].
    destruct (negb (code_contains cb (_pc f))); [discriminate |].
    destruct (is_entry_frame rt f); [discriminate |].
    destruct (is_upcall_stub_frame f); [discriminate |].
    destruct (candidate_sender lay rt thread m f cb) as [c |]; [| discriminate].
    destruct (through_return_barrier rt thread f c) as [c' |]; [| discriminate].
    intros H. destruct (check_sender_fatal _ _ _ _ H) as (He & blob & Hblob).
    split; [exact He |]. now exists c', blob.
  - destruct (negb (fp_safe lay thread f)); [discriminate |].
    destruct (at_ m f (return_addr_offset lay) =? nullptr); discriminate.
Qed.

(** X1: [safe_for_sender] can stop at one assertion only, the one that says
    every compiled method has a non-zero frame size; on a code cache whose
    compiled methods all have a positive frame size it returns a boolean for
    every frame, every thread and every stack content.  In particular the
    candidate sender it hands to [is_interpreted_frame_valid] always passes
    that function's "not an interpreted frame" assertion. *)
Theorem safe_for_sender_always_returns thread m f :
  (forall pc blob, CodeCache_find_blob rt pc = Some blob ->
                   is_nmethod blob = true -> 0 < frame_size blob) ->
  exists b, safe_for_sender lay rt thread m f = Returns b.
Proof.
  intros Hsizes.
  destruct (safe_for_sender lay rt thread m f) as [b | e] eqn:Hsafe.
  - now exists b.
  - destruct (safe_for_sender_fatal _ _ _ _ Hsafe)
      as (_ & c' & blob & Hblob & Hnm & Hsize).
    specialize (Hsizes _ _ Hblob Hnm). lia.
Qed.

(** X2: a stack frame that [safe_for_sender] accepts has its sp in the usable
    stack and its unextended sp in the full stack; if it has a code unit, its
    pc lies inside that unit's code, and the unit reports the frame complete
    at that pc unless it is neither a compiled method, an adapter nor a
    runtime stub. *)
Theorem safe_for_sender_accepts_only thread m f :
  safe_for_sender lay rt thread m f = Returns true ->
  is_heap_frame f = false ->
  is_in_usable_stack thread (_sp f) = true /\
  is_in_full_stack_checked thread (_unextended_sp f) = true /\
  (forall cb, _cb f = Some cb ->
     code_contains cb (_pc f) = true /\
     (is_frame_complete_at cb (_pc f) = true \/
      (is_nmethod cb = false /\ is_adapter_blob cb = false
       /\ is_runtime_stub cb = false))).
Proof.
  unfold safe_for_sender. intros Hsafe Hheap. rewrite Hheap in Hsafe.
  destruct (is_in_usable_stack thread (_sp f)); cbn [negb] in Hsafe;
    [| discriminate].
  destruct (is_in_full_stack_checked thread (_unextended_sp f));
    cbn [negb] in Hsafe; [| discriminate].
  split; [reflexivity |]. split; [reflexivity |].
  intros cb Hcb. rewrite Hcb in Hsafe.
  destruct (negb (is_frame_complete_at cb (_pc f))
            && (is_nmethod cb || is_adapter_blob cb || is_runtime_stub cb))
    eqn:Hcomplete; [discriminate |].
  destruct (code_contains cb (_pc f)); cbn [negb] in Hsafe; [| discriminate].
  split; [reflexivity |].
  destruct (is_frame_complete_at cb (_pc f)); [now left | right].
  cbn [negb andb] in Hcomplete.
  apply orb_false_iff in Hcomplete as [Hcomplete Hstub].
  apply orb_false_iff in Hcomplete as [Hnm Hadapter]. auto.
Qed.

(** X3: only compiled and runtime frames may have an unsafe fp.  A stack
    frame that is accepted and is unknown to the code cache, or an entry
    frame, or an upcall-stub frame, or an interpreted frame, has an fp
    strictly between sp and the stack top whose return-address slot lies in
    the stack; an accepted entry frame also passed [is_entry_frame_valid]. *)
Theorem safe_for_sender_needs_safe_fp thread m f :
  safe_for_sender lay rt thread m f = Returns true ->
  is_heap_frame f = false ->
  _cb f = None \/ is_entry_frame rt f = true \/ is_upcall_stub_frame f = true
  \/ is_interpreted_frame rt f = true ->
  fp_safe lay thread f = true /\
  (_cb f <> None -> is_entry_frame rt f = true ->
   is_entry_frame_valid rt thread f = true).
Proof.
  unfold safe_for_sender. intros Hsafe Hheap Hkind. rewrite Hheap in Hsafe.
  destruct (negb (is_in_usable_stack thread (_sp f))); [discriminate |].
  destruct (negb (is_in_full_stack_checked thread (_unextended_sp f)));
    [discriminate |].
  destruct (_cb f) as [cb |] eqn:Hcb.
  - destruct (negb (is_frame_complete_at cb (_pc f)) && _); [discriminate |].
    destruct (negb (code_contains cb (_pc f))); [discriminate |].
    destruct (is_entry_frame rt f) eqn:Hentry.
    { injection Hsafe as Hsafe. apply andb_true_iff in Hsafe as [Hfp Hvalid].
      auto. }
    destruct (is_upcall_stub_frame f) eqn:Hupcall.
    { injection Hsafe as Hsafe. split; [exact Hsafe | discriminate]. }
    destruct Hkind as [Hnone | [Hkind | [Hkind | Hinterp]]]; try discriminate.
    unfold candidate_sender in Hsafe. rewrite Hinterp in Hsafe.
    destruct (fp_safe lay thread f); [| discriminate].
    split; [reflexivity | discriminate].
  - destruct (fp_safe lay thread f); [| discriminate].
    split; [reflexivity | congruence].
Qed.

(** X4: for a compiled or runtime frame, fp plays no part.  Changing the fp
    of a stack frame that has a code unit and is neither interpreted nor an
    entry nor an upcall-stub frame does not change what [safe_for_sender]
    says, as long as the two continuation queries do not tell the two frames
    apart. *)
Theorem safe_for_sender_compiled_ignores_fp thread m f cb fp :
  is_heap_frame f = false ->
  _cb f = Some cb ->
  is_interpreted_frame rt f = false ->
  is_entry_frame rt f = false ->
  is_upcall_stub_frame f = false ->
  Continuation_is_frame_in_continuation rt thread (set_fp f fp)
    = Continuation_is_frame_in_continuation rt thread f ->
  (forall ssp, Continuation_continuation_bottom_sender rt thread (set_fp f fp) ssp
               = Continuation_continuation_bottom_sender rt thread f ssp) ->
  safe_for_sender lay rt thread m (set_fp f fp)
    = safe_for_sender lay rt thread m f.
Proof.
  intros Hheap Hcb Hinterp Hentry Hupcall Hin Hbottom.
  unfold safe_for_sender, candidate_sender, through_return_barrier,
    is_heap_frame, is_interpreted_frame, is_entry_frame, is_upcall_stub_frame
    in *.
  cbn [set_fp _sp _unextended_sp _fp _pc _cb _on_heap].
  rewrite Hheap, Hcb, Hinterp, Hentry. rewrite Hcb in Hupcall. rewrite Hupcall.
  destruct (negb (is_in_usable_stack thread (_sp f))); [reflexivity |].
  destruct (negb (is_in_full_stack_checked thread (_unextended_sp f)));
    [reflexivity |].
  destruct (negb (is_frame_complete_at cb (_pc f)) && _); [reflexivity |].
  destruct (negb (code_contains cb (_pc f))); [reflexivity |].
  destruct (frame_size cb <=? 0); [reflexivity |].
  destruct (negb (is_in_full_stack_checked thread _)); [reflexivity |].
  cbn [sender_pc sender_sp sender_unextended_sp saved_fp].
  rewrite Hin, Hbottom. reflexivity.
Qed.

(** X5: when the candidate sender pc lies inside the interpreter,
    [safe_for_sender] returns true exactly when the saved fp lies in the
    stack strictly above the candidate sender sp and the candidate passes
    [is_interpreted_frame_valid]; an accepted candidate therefore has a
    non-null, word-aligned sp and fp. *)
Theorem safe_for_sender_interpreted_sender thread m f cb c' :
  reaches_sender_check lay rt thread m f cb c' ->
  Interpreter_contains rt (sender_pc c') = true ->
  let sender := frame_of rt (sender_sp c') (sender_unextended_sp c')
                         (saved_fp c') (sender_pc c') in
  (safe_for_sender lay rt thread m f = Returns true <->
   is_in_stack_range_excl thread (saved_fp c') (sender_sp c') = true /\
   is_interpreted_frame_valid lay rt thread m sender = Returns true) /\
  (safe_for_sender lay rt thread m f = Returns true ->
   saved_fp c' <> nullptr /\ Z.land (saved_fp c') (wordSize - 1) = 0 /\
   sender_sp c' <> nullptr /\ Z.land (sender_sp c') (wordSize - 1) = 0 /\
   sender_sp c' < saved_fp c').
Proof.
  intros Hreach Hinterp sender.
  assert (Hsafe : safe_for_sender lay rt thread m f =
                  if negb (is_in_stack_range_excl thread (saved_fp c') (sender_sp c'))
                  then Returns false
                  else is_interpreted_frame_valid lay rt thread m sender).
  { rewrite (safe_for_sender_at_sender_check _ _ _ _ _ _ _ Hreach).
    unfold check_sender. now rewrite Hinterp. }
  assert (Hiff : safe_for_sender lay rt thread m f = Returns true <->
                 is_in_stack_range_excl thread (saved_fp c') (sender_sp c') = true /\
                 is_interpreted_frame_valid lay rt thread m sender = Returns true).
  { rewrite Hsafe.
    destruct (is_in_stack_range_excl thread (saved_fp c') (sender_sp c'));
      cbn [negb]; split.
    - auto.
    - now intros (_ & H).
    - discriminate.
    - now intros (H & _). }
  split; [exact Hiff |].
  intros Htrue. apply Hiff in Htrue as (_ & Hvalid).
  apply is_interpreted_frame_valid_true_inv in Hvalid.
  destruct Hvalid as (H1 & H2 & H3 & H4 & H5 & _). cbn in *. auto.
Qed.

End SafeForSenderMore.

(** ** More on [is_interpreted_frame_valid], [patch_pc] and [make_walkable] *)

Section ValidatorsMore.

Context {Thread : Type} {bounds : StackBoundsOracle Thread}.
Variable lay : FrameLayout.
Variable rt : Runtime Thread.

(** X6: an accepted interpreted frame leaves room for its fixed part: when
    fp is large enough for [fp + interpreter_frame_initial_sp_offset] not to
    wrap around, sp lies at or below that address.  (For a smaller fp the
    sum wraps, the test of line 540 passes whatever sp is, and only
    [fp <= sp] is left to reject the frame.) *)
Theorem is_interpreted_frame_valid_fixed_part thread m f :
  is_interpreted_frame_valid lay rt thread m f = Returns true ->
  - 2 ^ 60 <= interpreter_frame_initial_sp_offset lay <= 0 ->
  - (wordSize * interpreter_frame_initial_sp_offset lay) <= _fp f < 2 ^ 64 ->
  _sp f <= _fp f + wordSize * interpreter_frame_initial_sp_offset lay.
Proof.
  intros Hvalid Hoff Hfp.
  apply is_interpreted_frame_valid_true_inv in Hvalid.
  destruct Hvalid as (_ & _ & _ & _ & _ & Hinit).
  apply Z.ltb_ge in Hinit. unfold word_add in Hinit.
  rewrite wrap64_small in Hinit; [exact Hinit |].
  unfold wordSize in *. lia.
Qed.

(** X7: [patch_pc] completes exactly when its four assertions hold: the
    frame's code unit is the one found for the new pc, the stored return
    address is not the return barrier, it is null or the recorded pc or the
    new pc, and the original pc found after patching is null or the pc the
    frame recorded before. *)
Theorem patch_pc_completes_iff (m : Memory) (f : frame) (pc : address) :
  let m' := store m (word_add (_sp f) (-1)) (pauth_sign_return_address rt pc) in
  let original_pc := get_deopt_original_pc rt m' (set_pc f pc) in
  (exists r, patch_pc rt m f pc = Returns r) <->
  same_blob (_cb f) (CodeCache_find_blob rt pc) = true /\
  Continuation_is_return_barrier_entry rt (stored_pc rt m f) = false /\
  (stored_pc rt m f = _pc f \/ stored_pc rt m f = pc
   \/ stored_pc rt m f = nullptr) /\
  (original_pc = nullptr \/ original_pc = _pc f).
Proof.
  intros m' original_pc. unfold patch_pc. fold (stored_pc rt m f).
  fold m'. fold original_pc.
  destruct (same_blob (_cb f) (CodeCache_find_blob rt pc)); cbn [negb].
  2: { split; [intros [r H]; discriminate | intros (H & _); discriminate]. }
  destruct (Continuation_is_return_barrier_entry rt (stored_pc rt m f)).
  { split; [intros [r H]; discriminate | intros (_ & H & _); discriminate]. }
  destruct (Z.eqb_spec (_pc f) (stored_pc rt m f)) as [H1 | H1];
    destruct (Z.eqb_spec pc (stored_pc rt m f)) as [H2 | H2];
    destruct (Z.eqb_spec (stored_pc rt m f) nullptr) as [H3 | H3];
    cbn [orb negb];
    try (destruct (Z.eqb_spec original_pc nullptr) as [H4 | H4]; cbn [negb];
         [ split; [intros _; repeat split; auto | intros _; eexists; reflexivity]
         | destruct (Z.eqb_spec original_pc (_pc f)) as [H5 | H5]; cbn [negb];
           [ split; [intros _; repeat split; auto
                    | intros _; eexists; reflexivity]
           | split; [intros [r H]; discriminate
                    | intros (_ & _ & _ & [H | H]); contradiction] ] ]).
  split; [intros [r H]; discriminate |].
  intros (_ & _ & [H | [H | H]] & _); congruence.
Qed.

End ValidatorsMore.

(** X8: [make_walkable] never changes the recorded sp and fp of the anchor;
    a completed call on an anchor with a call-out recorded leaves it
    walkable, and leaves an anchor that already has a pc untouched.  Of its
    three assertions only the last can fire, and it does exactly when a
    call-out is recorded, no pc is captured yet and the word below the
    recorded sp is null. *)
Theorem make_walkable_outcome (m : Memory) (a : JavaFrameAnchor) :
  (forall o, make_walkable m a = Returns o ->
     _last_Java_sp (anchor_after o) = _last_Java_sp a /\
     _last_Java_fp (anchor_after o) = _last_Java_fp a /\
     (last_Java_sp a <> nullptr -> walkable (anchor_after o) = true) /\
     (last_Java_pc a <> nullptr -> anchor_after o = a)) /\
  (forall e, make_walkable m a = Fatal e <->
     e = assert_something_went_wrong /\
     last_Java_sp a <> nullptr /\ last_Java_pc a = nullptr /\
     load m (word_add (_last_Java_sp a) (-1)) = nullptr).
Proof.
  split.
  - intros o. unfold make_walkable.
    destruct (Z.eqb_spec (last_Java_sp a) nullptr) as [Hsp | Hsp].
    { intros H. injection H as <-. cbn.
      repeat split; auto; try (intros; contradiction). }
    destruct (walkable a) eqn:Hw.
    { intros H. injection H as <-. cbn. repeat split; auto. }
    destruct (Z.eqb_spec (last_Java_pc a) nullptr) as [Hpc | Hpc];
      cbn [negb]; [| discriminate].
    destruct (walkable (set_last_Java_pc a _)) eqn:Hw'; cbn [negb];
      [| discriminate].
    intros H. injection H as <-. cbn [anchor_after].
    repeat split; auto; try (intros; contradiction).
  - intros e. unfold make_walkable, walkable, set_last_Java_pc.
    fold (last_Java_sp a). fold (last_Java_pc a).
    cbn [_last_Java_sp _last_Java_pc]. fold (last_Java_sp a).
    destruct (Z.eqb_spec (last_Java_sp a) nullptr) as [Hsp | Hsp];
      cbn [negb andb].
    { split; [discriminate | intros (_ & H & _); contradiction]. }
    destruct (Z.eqb_spec (last_Java_pc a) nullptr) as [Hpc | Hpc];
      cbn [negb].
    2: { split; [discriminate | intros (_ & _ & H & _); contradiction]. }
    destruct (Z.eqb_spec (load m (word_add (last_Java_sp a) (-1))) nullptr)
      as [Hword | Hword]; cbn [negb].
    + split.
      * intros H. injection H as <-. auto.
      * intros (-> & _). reflexivity.
    + split; [discriminate | intros (_ & _ & _ & H); contradiction].
Qed.

(** ** The interpreter-frame slots *)

Section SlotProperties.

Context {Thread : Type} {bounds : StackBoundsOracle Thread}.
Variable lay : FrameLayout.
Variable ilay : InterpreterLayout.
Variable rt : Runtime Thread.

Lemma signed64_wrap64 (z : Z) : signed64 (wrap64 z) = signed64 z.
Proof. unfold signed64. now rewrite wrap64_idem. Qed.

Lemma at_ptr_at_put_same (m : Memory) (f : frame) (i v : Z) :
  at_ (ptr_at_put m f i v) f i = wrap64 v.
Proof. unfold at_, ptr_at_put. apply load_store_same. Qed.

Lemma at_ptr_at_put_other (m : Memory) (f : frame) (i j v : Z) :
  - 2 ^ 60 <= i < 2 ^ 60 -> - 2 ^ 60 <= j < 2 ^ 60 -> i <> j ->
  at_ (ptr_at_put m f i v) f j = at_ m f j.
Proof.
  intros Hi Hj Hne. unfold at_, ptr_at_put, addr_at.
  apply load_store_other. intros Heq. apply Hne. symmetry.
  now apply (word_add_inj (_fp f)).
Qed.

(** What a completed [interpreter_frame_set_monitor_end] has stored. *)
Lemma set_monitor_end_done (m : Memory) (f : frame) (value : address) (m' : Memory) :
  interpreter_frame_set_monitor_end ilay rt m f value = Done m' ->
  m' = ptr_at_put m f (interpreter_frame_monitor_block_top_offset ilay)
                  (word_diff value (_fp f)) /\
  word_diff value (_fp f) <= interpreter_frame_monitor_block_top_offset ilay.
Proof.
  unfold interpreter_frame_set_monitor_end.
  destruct (negb (is_interpreted_frame rt f)); [discriminate |].
  unfold at_absolute.
  fold (at_ (ptr_at_put m f (interpreter_frame_monitor_block_top_offset ilay)
                        (word_diff value (_fp f)))
            f (interpreter_frame_monitor_block_top_offset ilay)).
  rewrite at_ptr_at_put_same, signed64_wrap64.
  rewrite signed64_small
    by (pose proof (word_diff_range value (_fp f)); lia).
  destruct (Z.leb_spec (word_diff value (_fp f))
              (interpreter_frame_monitor_block_top_offset ilay));
    cbn [negb]; [| discriminate].
  intros Hdone. injection Hdone as <-. auto.
Qed.

(** X9: the monitor-block top survives the round trip through its
    relativised slot.  After a completed
    [interpreter_frame_set_monitor_end(value)], for a [value] a whole number
    of words away from fp, the slot stands for [value] again, and
    [interpreter_frame_monitor_end] returns [value] if it lies in
    [sp, fp) and stops at one of its two assertions if not. *)
Theorem monitor_end_round_trip (m : Memory) (f : frame) (value : address) (m' : Memory) :
  interpreter_frame_set_monitor_end ilay rt m f value = Done m' ->
  0 <= value < 2 ^ 64 ->
  (value - _fp f) mod 8 = 0 ->
  at_relative m' f (interpreter_frame_monitor_block_top_offset ilay) = value /\
  (_sp f <= value < _fp f ->
   interpreter_frame_monitor_end ilay m' f = Done value) /\
  (~ (_sp f <= value < _fp f) ->
   exists e, interpreter_frame_monitor_end ilay m' f = Stopped e).
Proof.
  intros Hset Hrange Hal.
  destruct (set_monitor_end_done _ _ _ _ Hset) as (-> & _).
  assert (Hrel : at_relative
                   (ptr_at_put m f (interpreter_frame_monitor_block_top_offset ilay)
                               (word_diff value (_fp f)))
                   f (interpreter_frame_monitor_block_top_offset ilay) = value).
  { unfold at_relative.
    fold (at_ (ptr_at_put m f (interpreter_frame_monitor_block_top_offset ilay)
                          (word_diff value (_fp f)))
              f (interpreter_frame_monitor_block_top_offset ilay)).
    rewrite at_ptr_at_put_same. now apply word_add_word_diff. }
  split; [exact Hrel |].
  unfold interpreter_frame_monitor_end. rewrite Hrel.
  split.
  - intros (Hlo & Hhi). apply Z.leb_le in Hlo. apply Z.ltb_lt in Hhi.
    now rewrite Hlo, Hhi.
  - intros Hout.
    destruct (Z.leb_spec (_sp f) value); cbn [negb]; [| eexists; reflexivity].
    destruct (Z.ltb_spec value (_fp f)); cbn [negb]; [lia | eexists; reflexivity].
Qed.

(** X10: the monitor block lies inside the frame.  When
    [interpreter_frame_set_monitor_end] and then
    [interpreter_frame_monitor_end] complete, the end of the block lies
    between sp and [interpreter_frame_monitor_begin], which lies at or below
    fp: the block never has a negative size.  (The block's top offset is at
    most its bottom offset, and neither is positive.) *)
Theorem monitor_block_inside_frame (m : Memory) (f : frame) (value : address)
    (m' : Memory) (monitor_end : address) :
  interpreter_frame_set_monitor_end ilay rt m f value = Done m' ->
  interpreter_frame_monitor_end ilay m' f = Done monitor_end ->
  interpreter_frame_monitor_block_top_offset ilay
    <= interpreter_frame_monitor_block_bottom_offset ilay <= 0 ->
  0 <= _fp f < 2 ^ 64 ->
  _sp f <= monitor_end /\
  monitor_end <= interpreter_frame_monitor_begin ilay f /\
  interpreter_frame_monitor_begin ilay f <= _fp f.
Proof.
  intros Hset Hend Hoff Hfp.
  destruct (set_monitor_end_done _ _ _ _ Hset) as (-> & Htop).
  pose proof (word_diff_range value (_fp f)) as Hd.
  revert Hend. unfold interpreter_frame_monitor_end, at_relative.
  fold (at_ (ptr_at_put m f (interpreter_frame_monitor_block_top_offset ilay)
                        (word_diff value (_fp f)))
            f (interpreter_frame_monitor_block_top_offset ilay)).
  rewrite at_ptr_at_put_same.
  set (d := word_diff value (_fp f)) in *.
  assert (Hr : exists k, word_add (_fp f) (wrap64 d)
                         = _fp f + wordSize * d + k * 2 ^ 64).
  { destruct (wrap64_decompose d) as [j Hj]. unfold word_add. rewrite Hj.
    destruct (wrap64_decompose (_fp f + wordSize * (d + j * 2 ^ 64)))
      as [k Hk]. rewrite Hk. exists (k + wordSize * j). lia. }
  destruct Hr as [k Hk].
  pose proof (wrap64_range (_fp f + wordSize * wrap64 d)) as Hrange.
  fold (word_add (_fp f) (wrap64 d)) in Hrange.
  destruct (Z.leb_spec (_sp f) (word_add (_fp f) (wrap64 d))) as [Hlo | Hlo];
    cbn [negb]; [| discriminate].
  destruct (Z.ltb_spec (word_add (_fp f) (wrap64 d)) (_fp f)) as [Hhi | Hhi];
    cbn [negb]; [| discriminate].
  intros Hdone. injection Hdone as <-.
  unfold wordSize in *.
  assert (Hk0 : k = 0) by nia.
  assert (Hbegin : interpreter_frame_monitor_begin ilay f
                   = _fp f + 8 * interpreter_frame_monitor_block_bottom_offset ilay).
  { unfold interpreter_frame_monitor_begin, addr_at, word_add, wordSize.
    apply wrap64_small. lia. }
  rewrite Hbegin. lia.
Qed.

(** X11: what [set_interpreter_frame_sender_sp] stores on a frame on the
    stack is what the frame's sender is taken to have seen as its sp: after
    a completed call on a frame that is not a heap frame,
    [interpreter_frame_sender_sp] returns the stored address, and the
    candidate sender that [safe_for_sender] computes for the frame has it as
    its unextended sp.  On a heap frame the setter stores the address as it
    is while the getter reads the slot as a word offset from fp, and returns
    the address that many words above fp. *)
Theorem sender_sp_round_trip (m : Memory) (f : frame) (v : address) (m' : Memory) :
  set_interpreter_frame_sender_sp lay rt m f v = Done m' ->
  0 <= v < 2 ^ 64 ->
  (is_heap_frame f = false ->
   interpreter_frame_sender_sp lay rt m' f = Done v /\
   (forall thread cb c,
      candidate_sender lay rt thread m' f cb = Some c ->
      sender_unextended_sp c = v)) /\
  (is_heap_frame f = true ->
   interpreter_frame_sender_sp lay rt m' f = Done (word_add (_fp f) v)).
Proof.
  unfold set_interpreter_frame_sender_sp, interpreter_frame_sender_sp, frame_at.
  destruct (is_interpreted_frame rt f) eqn:Hinterp; cbn [negb];
    [| discriminate].
  intros Hdone Hv. injection Hdone as <-.
  split; intros Hheap; rewrite Hheap.
  - rewrite at_ptr_at_put_same, (wrap64_small v Hv).
    split; [reflexivity |].
    intros thread cb c. unfold candidate_sender. rewrite Hinterp.
    destruct (negb (fp_safe lay thread f)); [discriminate |].
    intros Hc. injection Hc as <-. cbn [sender_unextended_sp].
    rewrite at_ptr_at_put_same. now apply wrap64_small.
  - unfold at_relative.
    fold (at_ (ptr_at_put m f (interpreter_frame_sender_sp_offset lay) v)
              f (interpreter_frame_sender_sp_offset lay)).
    now rewrite at_ptr_at_put_same, (wrap64_small v Hv).
Qed.

(** X12: the locals base survives the round trip through its relativised
    slot: after a completed [interpreter_frame_set_locals(locs)], for
    [locs] a whole number of words away from fp, the base computed from the
    slot is [locs] again, so that the locals test that closes
    [is_interpreted_frame_valid] is the stack-range test of [locs] itself. *)
Theorem locals_round_trip (m : Memory) (f : frame) (locs : address) (m' : Memory) :
  interpreter_frame_set_locals lay rt m f locs = Done m' ->
  0 <= locs < 2 ^ 64 ->
  (locs - _fp f) mod 8 = 0 ->
  interpreter_frame_locals lay m' f = locs /\
  (forall thread,
     is_in_stack_range_incl thread (interpreter_frame_locals lay m' f) (_fp f)
     = is_in_stack_range_incl thread locs (_fp f)).
Proof.
  unfold interpreter_frame_set_locals.
  destruct (negb (is_interpreted_frame rt f)); [discriminate |].
  intros H Hrange Hal. injection H as <-.
  assert (Hlocals : interpreter_frame_locals lay
                      (ptr_at_put m f (interpreter_frame_locals_offset lay)
                                  (word_diff locs (_fp f))) f = locs).
  { unfold interpreter_frame_locals. rewrite at_ptr_at_put_same.
    now apply word_add_word_diff. }
  split; [exact Hlocals |]. intros thread. now rewrite Hlocals.
Qed.

Lemma writes_slot_other (m : Memory) (f : frame) (m' : Memory) (i j : Z) :
  writes_slot lay ilay rt m f m' i ->
  - 2 ^ 60 <= i < 2 ^ 60 -> - 2 ^ 60 <= j < 2 ^ 60 -> i <> j ->
  at_ m' f j = at_ m f j.
Proof.
  intros Hw Hi Hj Hne.
  destruct Hw as [(x & Hset & ->) | [(x & Hset & ->) | [(x & Hset & ->)
                 | (x & Hset & ->)]]]; revert Hset;
    unfold interpreter_frame_set_locals, set_interpreter_frame_sender_sp,
      interpreter_frame_set_last_sp, interpreter_frame_set_extended_sp;
    (destruct (negb (is_interpreted_frame rt f)); [discriminate |]);
    intros Hset; injection Hset as <-; now apply at_ptr_at_put_other.
Qed.

(** X13: the slot setters keep to their own slot.  A completed
    [interpreter_frame_set_locals], [set_interpreter_frame_sender_sp],
    [interpreter_frame_set_last_sp] or [interpreter_frame_set_extended_sp]
    changes neither what [interpreter_frame_monitor_end] returns nor any
    other slot of the frame, the offsets being distinct (and within 2^60
    words). *)
Theorem slot_setters_keep_monitor_end (m : Memory) (f : frame) (m' : Memory) (i : Z) :
  writes_slot lay ilay rt m f m' i ->
  - 2 ^ 60 <= i < 2 ^ 60 ->
  (forall j, - 2 ^ 60 <= j < 2 ^ 60 -> i <> j -> at_ m' f j = at_ m f j) /\
  (- 2 ^ 60 <= interpreter_frame_monitor_block_top_offset ilay < 2 ^ 60 ->
   i <> interpreter_frame_monitor_block_top_offset ilay ->
   interpreter_frame_monitor_end ilay m' f
     = interpreter_frame_monitor_end ilay m f).
Proof.
  intros Hw Hi. split.
  - intros j Hj Hne. now apply (writes_slot_other m f m' i j).
  - intros Htop Hne. unfold interpreter_frame_monitor_end, at_relative.
    fold (at_ m' f (interpreter_frame_monitor_block_top_offset ilay)).
    fold (at_ m f (interpreter_frame_monitor_block_top_offset ilay)).
    now rewrite (writes_slot_other m f m' i _ Hw Hi Htop Hne).
Qed.

End SlotProperties.

(** ** Senders *)

Section SenderProperties.

Context {Thread RegisterMap : Type} {bounds : StackBoundsOracle Thread}.
Variable lay : FrameLayout.
Variable rt : Runtime Thread.
Variable wr : WalkRuntime Thread RegisterMap.

(** X14: the interpreted sender that is walked to is the one that was
    validated.  For an interpreted frame on the stack (not a heap frame),
    [sender_for_interpreter_frame] completes, and the frame it returns is built from the very four
    addresses [safe_for_sender] computes as its candidate; when the sender
    pc is the return barrier it is the continuation's bottom sender, whose
    sp and pc are those [safe_for_sender] goes on with, or, when the map
    walks into continuations, [Continuation::top_frame]. *)
Theorem sender_for_interpreter_frame_is_candidate
    (thread : Thread) (m : Memory) (f : frame) (cb : CodeBlob)
    (c : sender_candidate) (map : RegisterMap) :
  is_heap_frame f = false ->
  is_interpreted_frame rt f = true ->
  candidate_sender lay rt thread m f cb = Some c ->
  let map1 :=
    if COMPILER2_OR_JVMCI wr && map_update_map wr map
    then update_map_with_saved_link wr map (addr_at f (link_offset lay))
    else map in
  exists ws,
    sender_for_interpreter_frame lay rt wr m f map = Done ws /\
    ws_map ws = map1 /\
    (Continuation_is_return_barrier_entry rt (sender_pc c) = false ->
     ws_frame ws = frame_of rt (sender_sp c) (sender_unextended_sp c)
                            (saved_fp c) (sender_pc c)) /\
    (Continuation_is_return_barrier_entry rt (sender_pc c) = true ->
     map_walk_cont wr map1 = false ->
     map_thread wr map1 = thread ->
     ws_frame ws
       = Continuation_continuation_bottom_sender rt thread f (sender_sp c) /\
     forall c', through_return_barrier rt thread f c = Some c' ->
                sender_sp c' = _sp (ws_frame ws) /\
                sender_pc c' = _pc (ws_frame ws)) /\
    (Continuation_is_return_barrier_entry rt (sender_pc c) = true ->
     map_walk_cont wr map1 = true ->
     ws_frame ws = Continuation_top_frame wr f map1).
Proof.
  intros Hheap Hinterp Hcand map1.
  unfold candidate_sender in Hcand. rewrite Hinterp in Hcand.
  destruct (negb (fp_safe lay thread f)); [discriminate |].
  injection Hcand as <-.
  cbn [sender_sp sender_unextended_sp saved_fp sender_pc].
  unfold sender_for_interpreter_frame, interpreter_frame_sender_sp,
    frame_at, frame_sender_sp, link, sender_pc_maybe_signed.
  rewrite Hinterp, Hheap. cbn [negb]. fold map1.
  destruct (Continuation_is_return_barrier_entry rt
              (pauth_strip_verifiable rt (at_ m f (return_addr_offset lay))))
    eqn:Hbarrier.
  - destruct (map_walk_cont wr map1) eqn:Hwalk.
    + eexists. split; [reflexivity |]. cbn [ws_map ws_frame].
      split; [reflexivity |].
      split; [discriminate |]. split; [discriminate | reflexivity].
    + eexists. split; [reflexivity |]. cbn [ws_map ws_frame].
      split; [reflexivity |].
      split; [discriminate |]. split; [| discriminate].
      intros _ _ Hthread. rewrite Hthread. split; [reflexivity |].
      intros c'. unfold through_return_barrier.
      cbn [sender_sp sender_unextended_sp saved_fp sender_pc].
      rewrite Hbarrier.
      destruct (negb (Continuation_is_frame_in_continuation rt thread f));
        [discriminate |].
      intros Hc. injection Hc as <-. cbn. auto.
  - eexists. split; [reflexivity |]. cbn [ws_map ws_frame].
    split; [reflexivity |].
    split; [reflexivity |]. split; discriminate.
Qed.

(** The frame materialised from an anchor that [make_walkable] has dealt
    with. *)
Lemma frame_from_walkable_anchor (m : Memory) (jfa : JavaFrameAnchor)
    (o : walk_outcome) :
  make_walkable m jfa = Returns o ->
  last_Java_sp jfa <> nullptr ->
  let jfa' := anchor_after o in
  let fr := frame_init rt (last_Java_sp jfa') (_last_Java_fp jfa')
                       (last_Java_pc jfa') in
  walkable jfa' = true /\
  _last_Java_sp jfa' = _last_Java_sp jfa /\
  _last_Java_fp jfa' = _last_Java_fp jfa /\
  _sp fr = last_Java_sp jfa /\ _unextended_sp fr = last_Java_sp jfa /\
  _fp fr = _last_Java_fp jfa /\
  _pc fr <> nullptr /\
  (last_Java_pc jfa = nullptr ->
   _pc fr = load m (word_add (_last_Java_sp jfa) (-1))) /\
  (last_Java_pc jfa <> nullptr -> jfa' = jfa /\ _pc fr = last_Java_pc jfa).
Proof.
  intros Hret Hsp jfa' fr.
  assert (Hw : walkable jfa' = true).
  { destruct (make_walkable_returns _ _ _ Hret)
      as [(Ha & _ & [Hnull | Hw]) | (_ & _ & Hw)];
      [contradiction | unfold jfa'; now rewrite Ha | exact Hw]. }
  assert (Hpc : last_Java_pc jfa' <> nullptr).
  { unfold walkable in Hw. apply andb_true_iff in Hw as (_ & Hw).
    apply negb_true_iff in Hw. now apply Z.eqb_neq. }
  revert Hret. unfold make_walkable.
  destruct (Z.eqb_spec (last_Java_sp jfa) nullptr) as [Hnull | _];
    [contradiction |].
  destruct (walkable jfa) eqn:Hwalk.
  - intros Hret. injection Hret as Ho.
    assert (Hsame : jfa' = jfa) by (unfold jfa'; now rewrite <- Ho).
    assert (Hpc0 : last_Java_pc jfa <> nullptr) by (now rewrite <- Hsame).
    subst fr. rewrite Hsame. cbn. unfold last_Java_sp, last_Java_pc in *.
    repeat split; auto; try (intros; contradiction); now rewrite <- Hsame.
  - destruct (Z.eqb_spec (last_Java_pc jfa) nullptr) as [Hpc0 | Hpc0];
      cbn [negb]; [| discriminate].
    destruct (negb (walkable _)); [discriminate |].
    intros Hret. injection Hret as Ho.
    assert (Hset : jfa' = set_last_Java_pc jfa
                            (load m (word_add (_last_Java_sp jfa) (-1))))
      by (unfold jfa'; now rewrite <- Ho).
    subst fr. rewrite Hset in *. cbn in *.
    unfold last_Java_sp, last_Java_pc in *. cbn in *.
    repeat split; auto; try (intros; contradiction).
Qed.

(** X15: the sender of an upcall-stub frame comes from a walkable anchor.
    When [sender_for_upcall_stub_frame] completes, the anchor the stub keeps
    for the frame has been made walkable without its sp and fp changing, the
    sender has the anchor's sp (strictly above the frame's own sp) as sp and
    unextended sp, the anchor's fp, and a non-null pc: the anchor's pc if it
    had one, the word below the anchor's sp otherwise.  On the first frame,
    whose anchor has no call-out recorded, it stops at an assertion. *)
Theorem sender_for_upcall_stub_frame_done
    (m : Memory) (f : frame) (map : option RegisterMap)
    (ws : walk_step RegisterMap) :
  sender_for_upcall_stub_frame rt wr m f map = Done ws ->
  exists blob jfa',
    _cb f = Some blob /\ ws_anchor ws = Some jfa' /\
    let jfa := UpcallStub_jfa_for_frame wr blob f in
    let fr := ws_frame ws in
    last_Java_sp jfa <> nullptr /\
    walkable jfa' = true /\
    _last_Java_sp jfa' = _last_Java_sp jfa /\
    _last_Java_fp jfa' = _last_Java_fp jfa /\
    _sp f < _sp fr /\
    _sp fr = last_Java_sp jfa /\ _unextended_sp fr = last_Java_sp jfa /\
    _fp fr = _last_Java_fp jfa /\
    _pc fr <> nullptr /\
    (last_Java_pc jfa = nullptr ->
     _pc fr = load m (word_add (_last_Java_sp jfa) (-1))) /\
    (last_Java_pc jfa <> nullptr -> jfa' = jfa /\ _pc fr = last_Java_pc jfa) /\
    ws_sp_is_trusted ws = false.
Proof.
  unfold sender_for_upcall_stub_frame, upcall_stub_frame_is_first,
    is_upcall_stub_frame.
  destruct map as [map |]; [| discriminate].
  destruct (_cb f) as [blob |]; [| discriminate].
  destruct (is_upcall_stub blob); cbn [negb]; [| discriminate].
  destruct (Z.eqb_spec (last_Java_sp (UpcallStub_jfa_for_frame wr blob f))
              nullptr) as [Hnull | Hset]; [discriminate |].
  destruct (Z.ltb_spec (_sp f)
              (last_Java_sp (UpcallStub_jfa_for_frame wr blob f)))
    as [Habove | Hbelow]; cbn [negb]; [| discriminate].
  destruct (make_walkable m (UpcallStub_jfa_for_frame wr blob f))
    as [o | e] eqn:Hwalk; [| discriminate].
  destruct (negb (map_include_argument_oops wr (map_clear wr map)));
    [discriminate |].
  intros Hdone. injection Hdone as <-.
  exists blob, (anchor_after o).
  split; [reflexivity |]. split; [reflexivity |].
  cbn [ws_frame ws_sp_is_trusted].
  destruct (frame_from_walkable_anchor m _ o Hwalk Hset)
    as (H1 & H2 & H3 & H4 & H5 & H6 & H7 & H8 & H9).
  repeat split; try assumption; try (apply H9; assumption).
  rewrite H4. exact Habove.
Qed.

(** X16: the sender of an entry frame comes from the walkable anchor of its
    call wrapper.  When [sender_for_entry_frame] completes, that anchor has
    been made walkable without its sp and fp changing, the sender has the
    anchor's sp (strictly above the frame's own sp) as sp and unextended sp,
    the anchor's fp, a non-null pc (the anchor's pc if it had one, the word
    below the anchor's sp otherwise), and its sp is marked trusted. *)
Theorem sender_for_entry_frame_done
    (m : Memory) (f : frame) (map : option RegisterMap)
    (ws : walk_step RegisterMap) :
  sender_for_entry_frame lay rt wr m f map = Done ws ->
  exists jfa',
    ws_anchor ws = Some jfa' /\
    let jfa := JavaCallWrapper_anchor wr (entry_frame_call_wrapper lay m f) in
    let fr := ws_frame ws in
    last_Java_sp jfa <> nullptr /\
    walkable jfa' = true /\
    _last_Java_sp jfa' = _last_Java_sp jfa /\
    _last_Java_fp jfa' = _last_Java_fp jfa /\
    _sp f < _sp fr /\
    _sp fr = last_Java_sp jfa /\ _unextended_sp fr = last_Java_sp jfa /\
    _fp fr = _last_Java_fp jfa /\
    _pc fr <> nullptr /\
    (last_Java_pc jfa = nullptr ->
     _pc fr = load m (word_add (_last_Java_sp jfa) (-1))) /\
    (last_Java_pc jfa <> nullptr -> jfa' = jfa /\ _pc fr = last_Java_pc jfa) /\
    ws_sp_is_trusted ws = true.
Proof.
  unfold sender_for_entry_frame, entry_frame_is_first.
  destruct map as [map |]; [| discriminate].
  destruct (Z.eqb_spec
              (last_Java_sp (JavaCallWrapper_anchor wr
                               (entry_frame_call_wrapper lay m f)))
              nullptr) as [Hnull | Hset]; [discriminate |].
  destruct (Z.ltb_spec (_sp f)
              (last_Java_sp (JavaCallWrapper_anchor wr
                               (entry_frame_call_wrapper lay m f))))
    as [Habove | Hbelow]; cbn [negb]; [| discriminate].
  destruct (make_walkable m (JavaCallWrapper_anchor wr
                               (entry_frame_call_wrapper lay m f)))
    as [o | e] eqn:Hwalk; [| discriminate].
  destruct (negb (map_include_argument_oops wr (map_clear wr map)));
    [discriminate |].
  intros Hdone. injection Hdone as <-.
  exists (anchor_after o).
  split; [reflexivity |].
  cbn [ws_frame ws_sp_is_trusted].
  destruct (frame_from_walkable_anchor m _ o Hwalk Hset)
    as (H1 & H2 & H3 & H4 & H5 & H6 & H7 & H8 & H9).
  repeat split; try assumption; try (apply H9; assumption).
  rewrite H4. exact Habove.
Qed.

End SenderProperties.

(** ** The log stream output *)

Lemma array_put_length (a : list Z) (i : nat) (v : Z) :
  length (array_put a i v) = length a.
Proof.
  revert i. induction a as [| x rest IH]; intros [| j]; cbn; auto.
Qed.

Lemma array_put_nth (a : list Z) (i j : nat) (v d : Z) :
  (i < length a)%nat ->
  nth j (array_put a i v) d = if Nat.eqb j i then v else nth j a d.
Proof.
  revert i j. induction a as [| x rest IH]; intros i j Hi; cbn in Hi; [lia |].
  destruct i as [| i]; destruct j as [| j]; cbn; auto.
  apply IH. lia.
Qed.

Lemma clear_padding_length (n : nat) (padding : list Z) (i : nat) :
  length (clear_padding padding i n) = length padding.
Proof.
  revert padding i. induction n as [| n IH]; intros padding i; cbn; auto.
  now rewrite IH, array_put_length.
Qed.

Lemma clear_padding_nth (n : nat) (padding : list Z) (i j : nat) (d : Z) :
  (i + n <= length padding)%nat ->
  nth j (clear_padding padding i n) d
  = if (Nat.leb i j && Nat.ltb j (i + n))%bool then 0 else nth j padding d.
Proof.
  revert padding i. induction n as [| n IH]; intros padding i Hlen;
    cbn [clear_padding].
  - destruct (Nat.leb_spec i j); destruct (Nat.ltb_spec j (i + 0));
      cbn [andb]; auto; lia.
  - rewrite IH by (rewrite array_put_length; lia).
    rewrite array_put_nth by lia.
    destruct (Nat.leb_spec (S i) j); destruct (Nat.ltb_spec j (S i + n));
      destruct (Nat.leb_spec i j); destruct (Nat.ltb_spec j (i + S n));
      destruct (Nat.eqb_spec j i); cbn [andb]; auto; lia.
Qed.

(** X17: whatever the storage held before, a [LogFileStreamOutput] leaves
    its constructor with the padding of every one of the
    [LogDecorators::Count] decorators at zero. *)
Theorem new_LogFileStreamOutput_padding (Count : nat) (stream : Z) (padding : list Z) :
  length padding = Count ->
  _decorator_padding (new_LogFileStreamOutput Count stream padding)
    = repeat 0 Count.
Proof.
  intros Hlen. cbn [new_LogFileStreamOutput _decorator_padding].
  apply (nth_ext _ _ 0 0).
  - now rewrite clear_padding_length, repeat_length.
  - intros j Hj. rewrite clear_padding_length in Hj.
    rewrite clear_padding_nth by lia.
    rewrite nth_repeat.
    destruct (Nat.leb_spec 0 j); destruct (Nat.ltb_spec j (0 + Count));
      cbn [andb]; auto; lia.
Qed.

(** ** Patching and validating together *)

Section PatchThenValidate.

Context {Thread : Type} {bounds : StackBoundsOracle Thread}.
Variable lay : FrameLayout.
Variable rt : Runtime Thread.

(** X18: the slot [patch_pc] writes is the slot [safe_for_sender] reads the
    sender pc of the frame's compiled callee from.  After a completed
    [patch_pc(pc)] on a frame, the candidate sender computed for a compiled
    or runtime frame whose sender sp is that frame's sp has sender pc [pc];
    so once a frame is patched to a deopt entry of its compiled method,
    [safe_for_sender] turns its callee down. *)
Theorem patch_pc_then_safe_for_sender
    (thread : Thread) (m : Memory) (f : frame) (pc : address)
    (f' : frame) (m' : Memory) (g : frame) (cb : CodeBlob)
    (c : sender_candidate) :
  (forall x, pauth_strip_pointer rt (pauth_sign_return_address rt x) = x) ->
  patch_pc rt m f pc = Returns (f', m') ->
  is_interpreted_frame rt g = false ->
  reaches_candidate lay rt thread m' g cb c ->
  sender_sp c = _sp f ->
  sender_pc c = pc /\
  (forall blob nm,
     Continuation_is_return_barrier_entry rt pc = false ->
     Interpreter_contains rt pc = false ->
     StubRoutines_returns_to_call_stub rt pc = false ->
     CodeCache_find_blob rt pc = Some blob ->
     as_nmethod_or_null blob = Some nm ->
     is_deopt_entry nm pc = true ->
     safe_for_sender lay rt thread m' g = Returns false).
Proof.
  intros Hstrip Hpatch Hinterp Hreach Hsp.
  destruct (patch_pc_returns _ _ _ _ _ _ Hpatch) as (Hm & _).
  assert (Hpc : sender_pc c = pc).
  { destruct Hreach as (_ & _ & _ & _ & _ & _ & _ & _ & Hcand).
    revert Hcand Hsp. unfold candidate_sender. rewrite Hinterp.
    destruct (frame_size cb <=? 0); [discriminate |].
    destruct (negb (is_in_full_stack_checked thread _)); [discriminate |].
    intros Hc. injection Hc as <-.
    cbn [sender_sp sender_pc]. intros ->.
    rewrite Hm, load_store_same. apply Hstrip. }
  split; [exact Hpc |].
  intros blob nm Hbarrier Hinterp_pc Hstub Hblob Hnm Hdeopt.
  rewrite (safe_for_sender_at_candidate _ _ _ _ _ _ _ Hreach).
  unfold through_return_barrier. rewrite Hpc, Hbarrier.
  unfold check_sender, check_code_cache_sender.
  rewrite Hpc, Hinterp_pc, Hblob, Hstub, Hnm, Hdeopt.
  rewrite orb_true_r. cbn [orb].
  split_tests; reflexivity.
Qed.

End PatchThenValidate.

(** * The further properties on the synthetic runtime *)

Section MoreExamples.

Import Synthetic SyntheticWalk.

Lemma synthetic_nmethods_have_frames (pc : address) (blob : CodeBlob) :
  CodeCache_find_blob rt0 pc = Some blob ->
  is_nmethod blob = true -> 0 < frame_size blob.
Proof.
  cbn. unfold find_blob.
  destruct (in_range 36864 40960 pc).
  - intros H. injection H as <-. reflexivity.
  - destruct (in_range 24576 24832 pc); [| discriminate].
    intros H. injection H as <-. discriminate.
Qed.

(** X1, on the compiled frame returning into the call stub. *)
Lemma safe_for_sender_always_returns_witness :
  exists b, safe entry_memory compiled_frame = Returns b.
Proof.
  apply safe_for_sender_always_returns.
  exact synthetic_nmethods_have_frames.
Defined.

(** X2, on the same frame, which is accepted. *)
Lemma safe_for_sender_accepts_only_witness :
  safe entry_memory compiled_frame = Returns true /\
  is_in_usable_stack thread0 (_sp compiled_frame) = true /\
  is_in_full_stack_checked thread0 (_unextended_sp compiled_frame) = true /\
  code_contains compiled_blob (_pc compiled_frame) = true.
Proof.
  assert (Hsafe : safe entry_memory compiled_frame = Returns true)
    by (vm_compute; reflexivity).
  destruct (safe_for_sender_accepts_only aarch64_layout rt0 thread0
              entry_memory compiled_frame Hsafe eq_refl)
    as (Husable & Hfull & Hcb).
  destruct (Hcb compiled_blob eq_refl) as (Hcontains & _).
  auto.
Defined.

(** X3, on the native frame. *)
Lemma safe_for_sender_needs_safe_fp_witness :
  safe native_memory native_frame = Returns true /\
  fp_safe aarch64_layout thread0 native_frame = true.
Proof.
  assert (Hsafe : safe native_memory native_frame = Returns true)
    by (vm_compute; reflexivity).
  split; [exact Hsafe |].
  exact (proj1 (safe_for_sender_needs_safe_fp aarch64_layout rt0 thread0
                  native_memory native_frame Hsafe eq_refl
                  (or_introl eq_refl))).
Defined.

(** X4, on the compiled frame with its fp wiped. *)
Lemma safe_for_sender_compiled_ignores_fp_witness :
  safe entry_memory (set_fp compiled_frame 0) = safe entry_memory compiled_frame.
Proof.
  apply (safe_for_sender_compiled_ignores_fp aarch64_layout rt0 thread0
           entry_memory compiled_frame compiled_blob 0);
    reflexivity.
Defined.

Lemma compiled_frame_reaches_interpreted_sender :
  reaches_sender_check aarch64_layout rt0 thread0 interpreted_sender_memory
                       compiled_frame compiled_blob interpreted_candidate.
Proof. exists interpreted_candidate. repeat split. Qed.

(** X5, on the compiled frame returning into the interpreter. *)
Lemma safe_for_sender_interpreted_sender_witness :
  safe interpreted_sender_memory compiled_frame = Returns true /\
  Z.land (saved_fp interpreted_candidate) (wordSize - 1) = 0 /\
  sender_sp interpreted_candidate < saved_fp interpreted_candidate.
Proof.
  assert (Hsafe : safe interpreted_sender_memory compiled_frame = Returns true)
    by (vm_compute; reflexivity).
  destruct (safe_for_sender_interpreted_sender aarch64_layout rt0 thread0
              interpreted_sender_memory compiled_frame compiled_blob
              interpreted_candidate
              compiled_frame_reaches_interpreted_sender eq_refl)
    as (_ & Hinv).
  destruct (Hinv Hsafe) as (_ & Hal & _ & _ & Hlt). auto.
Defined.

(** X6, on the accepted interpreted frame. *)
Lemma is_interpreted_frame_valid_fixed_part_witness :
  valid interpreter_memory deep_interpreted_frame = Returns true /\
  _sp deep_interpreted_frame <= _fp deep_interpreted_frame + wordSize * -10.
Proof.
  assert (Hvalid : valid interpreter_memory deep_interpreted_frame = Returns true)
    by (vm_compute; reflexivity).
  split; [exact Hvalid |].
  apply (is_interpreted_frame_valid_fixed_part aarch64_layout rt0 thread0
           interpreter_memory deep_interpreted_frame Hvalid);
    vm_compute; split; (discriminate || reflexivity).
Defined.

(** X9 and X10, on the interpreted frame: the monitor block is set to end
    twelve words below fp. *)
Lemma monitor_end_round_trip_witness :
  exists m',
    interpreter_frame_set_monitor_end aarch64_interpreter_layout rt0
      interpreter_memory deep_interpreted_frame 499904 = Done m' /\
    interpreter_frame_monitor_end aarch64_interpreter_layout m'
      deep_interpreted_frame = Done 499904.
Proof.
  eexists. split; [reflexivity |].
  assert (Hrange : 0 <= 499904 < 2 ^ 64)
    by (vm_compute; split; [discriminate | reflexivity]).
  assert (Hinside : _sp deep_interpreted_frame <= 499904
                    < _fp deep_interpreted_frame)
    by (vm_compute; split; [discriminate | reflexivity]).
  destruct (monitor_end_round_trip aarch64_interpreter_layout rt0
              interpreter_memory deep_interpreted_frame 499904 _
              eq_refl Hrange eq_refl) as (_ & Hend & _).
  exact (Hend Hinside).
Defined.

Lemma monitor_block_inside_frame_witness :
  _sp deep_interpreted_frame <= 499904 /\
  499904 <= interpreter_frame_monitor_begin aarch64_interpreter_layout
              deep_interpreted_frame /\
  interpreter_frame_monitor_begin aarch64_interpreter_layout
    deep_interpreted_frame <= _fp deep_interpreted_frame.
Proof.
  assert (Hoff : interpreter_frame_monitor_block_top_offset
                   aarch64_interpreter_layout
                 <= interpreter_frame_monitor_block_bottom_offset
                      aarch64_interpreter_layout <= 0)
    by (vm_compute; split; discriminate).
  assert (Hfp : 0 <= _fp deep_interpreted_frame < 2 ^ 64)
    by (vm_compute; split; [discriminate | reflexivity]).
  exact (monitor_block_inside_frame aarch64_interpreter_layout rt0
           interpreter_memory deep_interpreted_frame 499904 _ 499904
           eq_refl eq_refl Hoff Hfp).
Defined.

(** X11, X12 and X13, on the interpreted frame. *)
Lemma sender_sp_round_trip_witness :
  (exists m',
     set_interpreter_frame_sender_sp aarch64_layout rt0 interpreter_memory
       deep_interpreted_frame 500100 = Done m' /\
     interpreter_frame_sender_sp aarch64_layout rt0 m' deep_interpreted_frame
       = Done 500100) /\
  (exists m',
     set_interpreter_frame_sender_sp aarch64_layout rt0 interpreter_memory
       heap_interpreted_frame 500100 = Done m' /\
     interpreter_frame_sender_sp aarch64_layout rt0 m' heap_interpreted_frame
       = Done 4500800).
Proof.
  assert (Hrange : 0 <= 500100 < 2 ^ 64)
    by (vm_compute; split; [discriminate | reflexivity]).
  split.
  - eexists. split; [reflexivity |].
    exact (proj1 (proj1 (sender_sp_round_trip aarch64_layout rt0
                           interpreter_memory deep_interpreted_frame 500100 _
                           eq_refl Hrange) eq_refl)).
  - eexists. split; [reflexivity |].
    exact (proj2 (sender_sp_round_trip aarch64_layout rt0
                    interpreter_memory heap_interpreted_frame 500100 _
                    eq_refl Hrange) eq_refl).
Defined.

Lemma locals_round_trip_witness :
  exists m',
    interpreter_frame_set_locals aarch64_layout rt0 blank_memory
      deep_interpreted_frame 500016 = Done m' /\
    interpreter_frame_locals aarch64_layout m' deep_interpreted_frame = 500016.
Proof.
  eexists. split; [reflexivity |].
  assert (Hrange : 0 <= 500016 < 2 ^ 64)
    by (vm_compute; split; [discriminate | reflexivity]).
  exact (proj1 (locals_round_trip aarch64_layout rt0 blank_memory
                  deep_interpreted_frame 500016 _ eq_refl Hrange eq_refl)).
Defined.

Lemma slot_setters_keep_monitor_end_witness :
  exists m',
    interpreter_frame_set_last_sp aarch64_interpreter_layout rt0
      interpreter_memory deep_interpreted_frame 499000 = Done m' /\
    at_ m' deep_interpreted_frame (-3)
      = at_ interpreter_memory deep_interpreted_frame (-3).
Proof.
  eexists. split; [reflexivity |].
  assert (Hwrites : writes_slot aarch64_layout aarch64_interpreter_layout rt0
                      interpreter_memory deep_interpreted_frame
                      (ptr_at_put interpreter_memory deep_interpreted_frame
                                  (-2) (word_diff 499000 500000))
                      (-2)).
  { right. right. left. exists 499000. split; reflexivity. }
  assert (Hi : - 2 ^ 60 <= -2 < 2 ^ 60)
    by (vm_compute; split; [discriminate | reflexivity]).
  assert (Hj : - 2 ^ 60 <= -3 < 2 ^ 60)
    by (vm_compute; split; [discriminate | reflexivity]).
  apply (proj1 (slot_setters_keep_monitor_end aarch64_layout
                  aarch64_interpreter_layout rt0 interpreter_memory
                  deep_interpreted_frame _ (-2) Hwrites Hi) (-3) Hj).
  discriminate.
Defined.

(** X14, on the interpreted frame with its sender's slots filled in. *)
Lemma sender_for_interpreter_frame_is_candidate_witness :
  exists ws,
    sender_for_interpreter_frame aarch64_layout rt0 wr0 walk_memory
      deep_interpreted_frame map0 = Done ws /\
    ws_frame ws = frame_of rt0 500016 500100 500400 37000 /\
    sm_fp_location (ws_map ws) = Some 500000.
Proof.
  assert (Hcand : candidate_sender aarch64_layout rt0 thread0 walk_memory
                    deep_interpreted_frame compiled_blob = Some walk_candidate)
    by (vm_compute; reflexivity).
  destruct (sender_for_interpreter_frame_is_candidate aarch64_layout rt0 wr0
              thread0 walk_memory deep_interpreted_frame compiled_blob
              walk_candidate map0 eq_refl eq_refl Hcand)
    as (ws & Hdone & Hmap & Hframe & _).
  exists ws. split; [exact Hdone |].
  split; [exact (Hframe eq_refl) |].
  rewrite Hmap. reflexivity.
Defined.

(** X15 and X16, on an upcall-stub frame and an entry frame below the
    anchor recorded at sp 500000. *)
Lemma sender_for_upcall_stub_frame_done_witness :
  exists ws,
    sender_for_upcall_stub_frame rt0 wr0 anchor_memory upcall_frame (Some map0)
      = Done ws /\
    _sp upcall_frame < _sp (ws_frame ws) /\ _pc (ws_frame ws) <> nullptr /\
    ws_sp_is_trusted ws = false.
Proof.
  eexists. split; [reflexivity |].
  destruct (sender_for_upcall_stub_frame_done rt0 wr0 anchor_memory
              upcall_frame (Some map0) _ eq_refl)
    as (blob & jfa' & _ & _ & H).
  cbv zeta in H.
  destruct H as (_ & _ & _ & _ & Habove & _ & _ & _ & Hpc & _ & _ & Htrust).
  auto.
Defined.

Lemma sender_for_entry_frame_done_witness :
  exists ws,
    sender_for_entry_frame aarch64_layout rt0 wr0 anchor_memory entry_frame
      (Some map0) = Done ws /\
    _sp entry_frame < _sp (ws_frame ws) /\ _pc (ws_frame ws) <> nullptr /\
    ws_sp_is_trusted ws = true.
Proof.
  eexists. split; [reflexivity |].
  destruct (sender_for_entry_frame_done aarch64_layout rt0 wr0 anchor_memory
              entry_frame (Some map0) _ eq_refl)
    as (jfa' & _ & H).
  cbv zeta in H.
  destruct H as (_ & _ & _ & _ & Habove & _ & _ & _ & Hpc & _ & _ & Htrust).
  auto.
Defined.

(** X17, on three decorators over used storage. *)
Lemma new_LogFileStreamOutput_padding_witness :
  _decorator_padding (new_LogFileStreamOutput 3 1 [5; 6; 7]) = [0; 0; 0].
Proof.
  apply (new_LogFileStreamOutput_padding 3 1 [5; 6; 7]). reflexivity.
Defined.

(** X18: the callee of the compiled frame is accepted before the frame is
    patched to return to the deoptimisation handler, and turned down after. *)
Lemma patch_pc_then_safe_for_sender_witness :
  patch_pc rt0 deopt_memory compiled_frame deopt_handler
    = Returns (patched_frame, patched_memory) /\
  safe deopt_memory callee_frame = Returns true /\
  safe patched_memory callee_frame = Returns false.
Proof.
  assert (Hpatch : patch_pc rt0 deopt_memory compiled_frame deopt_handler
                   = Returns (patched_frame, patched_memory))
    by reflexivity.
  assert (Hreach : reaches_candidate aarch64_layout rt0 thread0 patched_memory
                     callee_frame compiled_blob callee_candidate)
    by (repeat split).
  split; [exact Hpatch |]. split; [vm_compute; reflexivity |].
  destruct (patch_pc_then_safe_for_sender aarch64_layout rt0 thread0
              deopt_memory compiled_frame deopt_handler patched_frame
              patched_memory callee_frame compiled_blob callee_candidate
              (fun x => eq_refl) Hpatch eq_refl Hreach eq_refl)
    as (_ & Hrejects).
  exact (Hrejects compiled_blob compiled_nmethod
           eq_refl eq_refl eq_refl eq_refl eq_refl eq_refl).
Defined.

End MoreExamples.
